(** * packages/api-gw/src/apis/index.ts

    A shallow embedding of the API-gateway module of tencent-sdk: the
    [ApiGwRequest] dispatcher (one callable per remote action, built over the
    [Capi] client) and the [Validate] function (a Joi schema applied to a
    service configuration).

    JavaScript data is modelled as it is at run time: an untyped [value], with
    objects as property lists in insertion order. A string is the sequence of
    its code units, those below 256. *)

From Stdlib Require Import ZArith String Ascii List Bool Lia.
From stdpp Require Import base decidable option list strings.

Set Warnings "-register-all".

Local Open Scope string_scope.
Local Open Scope Z_scope.

(** ** JavaScript values *)

Module JS.

(** A JavaScript number, as far as this module looks at one: an integral
    double, a finite double with a fractional part ([m / 2^e], [m] odd), an
    infinity, or NaN. [-0] and [+0] are both [Int 0]. *)
Inductive number :=
| Int (z : Z)
| Frac (m : Z) (e : positive)
| Inf (negative : bool)
| NaN.

Inductive value :=
| VUndefined
| VNull
| VBool (b : bool)
| VNum (n : number)
| VStr (s : string)
| VArr (items : list value)
| VObj (props : list (string * value)).

(** An object is its list of own properties, in insertion order. *)
Abbreviation object := (list (string * value)).

Section Properties.
Context {A : Type}.

(** [o.hasOwnProperty(k) ? Some o[k] : None] *)
Fixpoint own (k : string) (o : list (string * A)) : option A :=
  match o with
  | [] => None
  | (k', v) :: o' => if String.eqb k k' then Some v else own k o'
  end.

(** [o[k] = v]: an existing property keeps its place, a new one goes last. *)
Fixpoint assign (k : string) (v : A) (o : list (string * A)) : list (string * A) :=
  match o with
  | [] => [(k, v)]
  | (k', v') :: o' =>
      if String.eqb k k' then (k', v) :: o' else (k', v') :: assign k v o'
  end.

(** [{...target, ...source}]: the properties of [source] are defined on
    [target] one after the other, a later definition replacing an earlier
    one of the same key. *)
Definition spread (target source : list (string * A)) : list (string * A) :=
  fold_left (fun t kv => assign (fst kv) (snd kv) t) source target.

Definition keys (o : list (string * A)) : list string := map fst o.

(** The property list of a JavaScript object has no key twice. *)
Definition well_formed (o : list (string * A)) : Prop := NoDup (keys o).
End Properties.

(** [o[k]]: a missing property reads as [undefined]. *)
Definition get (k : string) (o : object) : value :=
  default VUndefined (own k o).

(** [v !== 0] *)
Definition strict_neq_zero (v : value) : bool :=
  match v with
  | VNum (Int 0) => false
  | _ => true
  end.

(** [v ? true : false] *)
Definition truthy (v : value) : bool :=
  match v with
  | VUndefined | VNull | VBool false | VNum (Int 0) | VNum NaN | VStr "" => false
  | _ => true
  end.

(** [haystack] starts with [needle]. *)
Fixpoint starts_with (needle haystack : string) : bool :=
  match needle, haystack with
  | EmptyString, _ => true
  | String a n', String b h' => if Ascii.eqb a b then starts_with n' h' else false
  | String _ _, EmptyString => false
  end.

(** [s.match(pattern) !== null] for a [pattern] string without regular
    expression metacharacters: [new RegExp(pattern)] then matches exactly
    where [pattern] occurs in [s], case-sensitively. *)
Fixpoint matches (s pattern : string) : bool :=
  starts_with pattern s ||
  match s with
  | EmptyString => false
  | String _ s' => matches s' pattern
  end.

(** [sub] occurs in [s]. *)
Definition occurs (sub s : string) : Prop :=
  ∃ pre post, s = pre +:+ sub +:+ post.

(** [Array.prototype.indexOf] on a list of strings. *)
Fixpoint indexOf_from (i : Z) (l : list string) (x : string) : Z :=
  match l with
  | [] => -1
  | y :: l' => if String.eqb y x then i else indexOf_from (i + 1) l' x
  end.
Definition indexOf (l : list string) (x : string) : Z := indexOf_from 0 l x.

End JS.
Import JS.

(** ** The dispatcher *)

(** What a rejected call carries: the module's own [HttpError], the
    [TypeError] the runtime throws when [message] of a response has no
    [match] method, or whatever the [Capi] client rejected with. *)
Inductive error :=
| HttpError (code message : value)
| TypeError
| ClientError (e : value).

(** The settled state of the promise an [async] function returns. *)
Inductive promise (A : Type) :=
| Resolved (a : A)
| Rejected (e : error).
Arguments Resolved {A} a.
Arguments Rejected {A} e.

(** The result of a synchronous call that may throw an [E]. *)
Inductive completion (E A : Type) :=
| Return (a : A)
| Throw (e : E).
Arguments Return {E A} a.
Arguments Throw {E A} e.

(** [v.k] for a key [k] that no built-in prototype has, as [code] and
    [message]: reading a property of [undefined] or [null] throws a
    [TypeError]; an object gives its own property; a boolean, a number, a
    string or an array gives [undefined]. *)
Definition member (k : string) (v : value) : completion error value :=
  match v with
  | VUndefined | VNull => Throw TypeError
  | VObj o => Return (get k o)
  | _ => Return VUndefined
  end.

(** [err && err.message.match(pattern)], as a condition: a falsy [err]
    is the value of the conjunction; [err.message.match] is a function
    only when [message] is a string, and calling anything else throws a
    [TypeError]. *)
Definition message_matches (err : value) (pattern : string) : completion error bool :=
  if truthy err then
    match member "message" err with
    | Throw e => Throw e
    | Return (VStr message) => Return (matches message pattern)
    | Return _ => Throw TypeError
    end
  else Return false.

(** [CheckExistsFromError(err)], called with the response of the client. *)
Definition CheckExistsFromError (err : value) : completion error bool :=
  match message_matches err "does not exist" with
  | Throw e => Throw e
  | Return true => Return false
  | Return false =>
      match message_matches err "not found" with
      | Throw e => Throw e
      | Return true => Return false
      | Return false => Return true
      end
  end.

(** [CapiInstance.request(data, options, isV3)] of @tencent-sdk/capi: the
    signed remote call, outside this module. Nothing in this module
    restricts what it resolves with. *)
Definition CapiInstance := object -> object -> bool -> promise value.

Module ApiGwRequest.

Definition actionList : list string :=
  [ "CreateService"; "DeleteService"; "DescribeService"; "ReleaseService";
    "UnReleaseService"; "CreateApi"; "DescribeApi"; "DeleteApi"; "ModifyApi";
    "DescribeApisStatus"; "CreateUsagePlan"; "DescribeApiUsagePlan";
    "DescribeUsagePlanSecretIds"; "DescribeUsagePlan"; "DeleteUsagePlan";
    "ModifyUsagePlan"; "CreateApiKey"; "DeleteApiKey"; "DisableApiKey";
    "EnableApiKey"; "DescribeApiKeysStatus"; "BindSecretIds";
    "UnBindSecretIds"; "BindEnvironment"; "UnBindEnvironment" ].

Definition needCheckAction : list string :=
  [ "UnBindSecretIds"; "UnBindEnvironment"; "DeleteUsagePlan"; "DeleteApiKey" ].

(** The first argument of [this.apiRequest.request]: [{ Action, ...data }]. *)
Definition request_data (Action : string) (data : object) : object :=
  spread [("Action", VStr Action)] data.

(** Its second argument: [{ ...(options || {}), ...{ path: '/v2/index.php' } }]. *)
Definition request_options (options : option object) : object :=
  spread (spread [] (default [] options)) [("path", VStr "/v2/index.php")].

(** [async request(Action, data, options, isV3 = false, needCheck = false)].
    The [catch] clause rethrows what it caught. *)
Definition request (apiRequest : CapiInstance) (Action : string) (data : object)
    (options : option object) (isV3 needCheck : option bool) : promise value :=
  let isV3 := default false isV3 in
  let needCheck := default false needCheck in
  match apiRequest (request_data Action data) (request_options options) isV3 with
  | Rejected err => Rejected err
  | Resolved res =>
      match member "code" res with
      | Throw err => Rejected err
      | Return code =>
          (* [throw new HttpError(res.code, res.message)] *)
          let raise :=
            match member "message" res with
            | Throw err => Rejected err
            | Return message => Rejected (HttpError code message)
            end in
          if strict_neq_zero code then
            if needCheck then
              match CheckExistsFromError res with
              | Throw err => Rejected err
              | Return true => raise
              | Return false => Resolved res
              end
            else raise
          else Resolved res
      end
  end.

(** An entry of [this.apis]. *)
Definition api := object -> option object -> option bool -> promise value.

(** The arrow function [apiFactory] assigns to [this.apis[item]]. *)
Definition entry (apiRequest : CapiInstance) (item : string) : api :=
  fun data options isV3 =>
    request apiRequest item data options isV3
      (Some (negb (indexOf needCheckAction item =? -1))).

(** [apiFactory()]: [this.apis = {}], then one assignment per action. *)
Definition apiFactory (apiRequest : CapiInstance) : list (string * api) :=
  fold_left (fun apis item => assign item (entry apiRequest item) apis)
    actionList [].

(** The instance after [new ApiGwRequest(options)]; [Capi] is the client's
    constructor. *)
Record t := { apiRequest : CapiInstance; apis : list (string * api) }.

Definition constructor (Capi : object -> CapiInstance) (options : object) : t :=
  let apiRequest := Capi (spread (spread [] options) [("ServiceType", VStr "apigateway")]) in
  {| apiRequest := apiRequest; apis := apiFactory apiRequest |}.

End ApiGwRequest.

(** ** Joi

    The part of joi 14 that [Validate] uses, as an interpreter of schemas.
    [Joi.validate] runs with joi's default options: [abortEarly: true] (the
    first error ends the validation), [convert: true] (a string is coerced
    where a number, boolean, array or object is expected),
    [allowUnknown: false] and [presence: 'optional']. *)

Module Joi.

(** What [_base] of the number type leaves: the type of its error, or the
    number that the rules are run on. *)
Inductive based :=
| BaseError (ty : string)
| BaseValue (n : number).

(** What [convert] asks of the JavaScript runtime for a string. *)
Class Host := {
  (** [_base] of the number type on a string: joi converts a string that
      matches its pattern of a decimal numeral, with [parseFloat]; it
      reports [number.base] for another string and [number.unsafe] for a
      numeral whose digits the conversion does not keep. *)
  number_of_string : string -> based;
  (** [JSON.parse(s)], [None] when it throws *)
  JSON_parse : string -> option value;
}.

Inductive presence_flag := Optional | Required.

(** The pattern [/^(a1|...|an)$/] over literal alternatives. Without the
    [m] flag, [^] and [$] match at the two ends of the input only. *)
Inductive regexp := Alternatives (alts : list string).

(** An entry of [_tests], in the order the rules were added. *)
Inductive test :=
| Min (limit : Z)
| Max (limit : Z)
| Integer
| Regex (pattern : regexp).

(** The options of a validation that a schema can override ([_settings]). *)
Record settings_t := { allowUnknown : bool }.

(** [internals.defaults] *)
Definition defaults : settings_t := {| allowUnknown := false |}.

(** What every schema type carries: [_flags.presence], [_flags.default]
    ([VUndefined] when unset), the message of the [Error] given to
    [error()], [_settings] and [_tests]. *)
Record common := {
  presence : option presence_flag;
  default_value : value;
  flags_error : option string;
  settings : option settings_t;
  tests : list test;
}.

Definition any : common :=
  {| presence := None; default_value := VUndefined; flags_error := None;
     settings := None; tests := [] |}.

(** [JArray c items]: [items] is the one schema given to [items()], if any.
    [JObject c children]: [children] are the keys given to [keys()], if
    it was called. *)
Inductive schema :=
| JString (c : common)
| JNumber (c : common)
| JBoolean (c : common)
| JArray (c : common) (items : option schema)
| JObject (c : common) (children : option (list (string * schema))).

Definition common_of (s : schema) : common :=
  match s with
  | JString c | JNumber c | JBoolean c | JArray c _ | JObject c _ => c
  end.

Definition with_common (f : common -> common) (s : schema) : schema :=
  match s with
  | JString c => JString (f c)
  | JNumber c => JNumber (f c)
  | JBoolean c => JBoolean (f c)
  | JArray c i => JArray (f c) i
  | JObject c k => JObject (f c) k
  end.

(** *** Errors *)

(** A step of an error's path: a key of an object or a position of an array. *)
Inductive segment := Key (k : string) | Pos (i : nat).

(** An error as [createError] makes it while validating: its type, the step
    its own state adds to the path, [flags.error] of the schema that made it
    and, for [object.child] and [array.includesOne], the error below it
    (one, since the first error ends the validation). *)
Inductive err := Err (ty : string) (step : option segment)
                     (override : option string) (reason : option err).

(** What [Joi.validate] reports in [error]: the [Error] a schema was given
    with [error()], or joi's [ValidationError] with the type and path of the
    failing rule ([details[0]]). *)
Inductive exception :=
| Error (message : string)
| ValidationError (ty : string) (path : list segment).

(** [Errors.process]: an error made by a schema that carries [flags.error]
    is replaced, at whatever depth, by that [Error]. *)
Fixpoint process (path : list segment) (e : err) : exception :=
  match e with
  | Err ty step override reason =>
      match override with
      | Some message => Error message
      | None =>
          let path := (path ++ option_list step)%list in
          match reason with
          | Some r => process path r
          | None => ValidationError ty path
          end
      end
  end.

(** What [Joi.validate] returns: an object whose [error] is set, or one
    whose [error] is null and whose [value] is the validated value. *)
Inductive validation :=
| Invalid (error : exception)
| Valid (value : JS.value).

Inductive result (A : Type) :=
| Ok (a : A)
| Fail (e : err).
Arguments Ok {A} a.
Arguments Fail {A} e.

(** *** Rules *)

(** [Number.MAX_SAFE_INTEGER] *)
Definition MAX_SAFE_INTEGER : Z := 9007199254740991.

Definition isNaN (n : number) : bool :=
  match n with NaN => true | _ => false end.

(** [limit <= n] and [n <= limit] *)
Definition number_ge (n : number) (limit : Z) : bool :=
  match n with
  | Int z => limit <=? z
  | Frac m e => limit * 2 ^ Z.pos e <=? m
  | Inf negative => negb negative
  | NaN => false
  end.
Definition number_le (n : number) (limit : Z) : bool :=
  match n with
  | Int z => z <=? limit
  | Frac m e => m <=? limit * 2 ^ Z.pos e
  | Inf negative => negative
  | NaN => false
  end.

(** [n > MAX_SAFE_INTEGER || n < MIN_SAFE_INTEGER] *)
Definition unsafe (n : number) : bool :=
  negb (number_le n MAX_SAFE_INTEGER) || negb (number_ge n (- MAX_SAFE_INTEGER)).

Definition isSafeInteger (n : number) : bool :=
  match n with
  | Int z => (- MAX_SAFE_INTEGER <=? z) && (z <=? MAX_SAFE_INTEGER)
  | _ => false
  end.

Definition regexp_test (p : regexp) (s : string) : bool :=
  match p with
  | Alternatives alts => existsb (String.eqb s) alts
  end.

(** The type of the error a rule of a string, number or array schema
    reports on a value of that type, if it fails. A rule of another type
    does not occur in the [_tests] of a schema. *)
Definition string_test (t : test) (s : string) : option string :=
  match t with
  | Min limit =>
      if limit <=? Z.of_nat (String.length s) then None else Some "string.min"
  | Max limit =>
      if Z.of_nat (String.length s) <=? limit then None else Some "string.max"
  | Regex p => if regexp_test p s then None else Some "string.regex.base"
  | Integer => None
  end.

Definition number_test (t : test) (n : number) : option string :=
  match t with
  | Integer => if isSafeInteger n then None else Some "number.integer"
  | Min limit => if number_ge n limit then None else Some "number.min"
  | Max limit => if number_le n limit then None else Some "number.max"
  | Regex _ => None
  end.

Definition array_test (t : test) (l : list value) : option string :=
  match t with
  | Min limit =>
      if limit <=? Z.of_nat (length l) then None else Some "array.min"
  | Max limit =>
      if Z.of_nat (length l) <=? limit then None else Some "array.max"
  | _ => None
  end.

(** The loop over [_tests]: the first failing rule ends it. *)
Fixpoint run_tests {A : Type} (check : test -> A -> option string)
    (ts : list test) (a : A) : option string :=
  match ts with
  | [] => None
  | t :: ts' =>
      match check t a with
      | Some ty => Some ty
      | None => run_tests check ts' a
      end
  end.

(** [s.toLowerCase()], on the letters A to Z. *)
Definition lower (a : ascii) : ascii :=
  let n := nat_of_ascii a in
  if ((65 <=? n) && (n <=? 90))%nat then ascii_of_nat (n + 32) else a.
Fixpoint toLowerCase (s : string) : string :=
  match s with
  | EmptyString => EmptyString
  | String a s' => String (lower a) (toLowerCase s')
  end.

(** [internals.concatSettings(options, this._settings)] *)
Definition concatSettings (o : settings_t) (s : option settings_t) : settings_t :=
  match s with
  | Some o' => o'
  | None => o
  end.

(** *** Validation *)

Section Validation.
Context `{Host}.

Section Loops.
(** [flags.error] of the schema being validated. *)
Variable override : option string.

(** The loop of [_checkItems] from position [i] on: an [undefined] item
    is [array.sparse]; an item the [items()] schema rejects is
    [array.includesOne]; a validated item replaces the item.
    [validate_item] is [_validate] of the [items()] schema, if any. *)
Fixpoint checkItems (validate_item : option (value -> result value))
    (i : nat) (l : list value) : result (list value) :=
  match l with
  | [] => Ok []
  | item :: l' =>
      match item with
      | VUndefined => Fail (Err "array.sparse" (Some (Pos i)) override None)
      | _ =>
          let continue item' :=
            match checkItems validate_item (S i) l' with
            | Ok l'' => Ok (item' :: l'')
            | Fail e => Fail e
            end in
          match validate_item with
          | None => continue item
          | Some validate_item =>
              match validate_item item with
              | Fail e =>
                  Fail (Err "array.includesOne" (Some (Pos i)) override (Some e))
              | Ok VUndefined =>
                  Fail (Err "array.sparse" (Some (Pos i)) override None)
              | Ok item' => continue item'
              end
          end
      end
  end.

(** [if (result.value !== undefined) target[key] = result.value] *)
Definition store (key : string) (v : value) (target : JS.object) : JS.object :=
  match v with
  | VUndefined => target
  | _ => assign key v target
  end.

(** The loop over [_inner.children]: each child validates [target[key]];
    the first failure is [object.child]; a validated value that is not
    [undefined] is assigned to [target[key]]. [validate_child] is
    [_validate] of a child's schema. *)
Fixpoint validate_children (validate_child : schema -> value -> result value)
    (children : list (string * schema)) (target : JS.object)
    : result JS.object :=
  match children with
  | [] => Ok target
  | (key, child) :: children' =>
      match validate_child child (get key target) with
      | Fail e => Fail (Err "object.child" (Some (Key key)) override (Some e))
      | Ok v => validate_children validate_child children' (store key v target)
      end
  end.
End Loops.

(** The keys of [target] that no child of the schema has. *)
Definition unprocessed (children : list (string * schema)) (target : JS.object)
    : list string :=
  filter (fun k => k ∉ map fst children) (JS.keys target).

(** [internals.safeParse] of the object type and of the array type. *)
Definition object_parse (v : value) : value :=
  match v with
  | VStr s => match JSON_parse s with Some v' => v' | None => v end
  | _ => v
  end.
Definition array_parse (v : value) : value :=
  match v with
  | VStr s => match JSON_parse s with Some (VArr l) => VArr l | _ => v end
  | _ => v
  end.

(** [_base] of the number type: a number that is not NaN and is within
    the safe integers is kept; a string is converted. *)
Definition number_base (v : value) : based :=
  match v with
  | VNum n =>
      if isNaN n then BaseError "number.base"
      else if unsafe n then BaseError "number.unsafe"
      else BaseValue n
  | VStr s => number_of_string s
  | _ => BaseError "number.base"
  end.

(** The conversion of a string by the boolean type ([insensitive] is set
    by default). *)
Definition boolean_convert (v : value) : value :=
  match v with
  | VStr s =>
      if String.eqb (toLowerCase s) "true" then VBool true
      else if String.eqb (toLowerCase s) "false" then VBool false
      else v
  | _ => v
  end.

(** [schema._validate(value, state, options)] *)
Fixpoint _validate (s : schema) (options : settings_t) (value : value) {struct s}
    : result JS.value :=
  let flags := common_of s in
  let options := concatSettings options (settings flags) in
  let createError ty := Err ty None (flags_error flags) None in
  match value with
  | VUndefined =>
      match presence flags with
      | Some Required => Fail (createError "any.required")
      | _ => Ok (default_value flags)
      end
  | _ =>
      match s with
      | JString _ =>
          match value with
          | VStr "" => Fail (createError "any.empty")
          | VStr str =>
              match run_tests string_test (tests flags) str with
              | Some ty => Fail (createError ty)
              | None => Ok value
              end
          | _ => Fail (createError "string.base")
          end
      | JNumber _ =>
          (* [Infinity] and [-Infinity] are invalid values of the type,
             looked for before [_base] and again in what it converted *)
          match value with
          | VNum (Inf _) => Fail (createError "any.invalid")
          | _ =>
              match number_base value with
              | BaseError ty => Fail (createError ty)
              | BaseValue (Inf _) => Fail (createError "any.invalid")
              | BaseValue n =>
                  match run_tests number_test (tests flags) n with
                  | Some ty => Fail (createError ty)
                  | None => Ok (VNum n)
                  end
              end
          end
      | JBoolean _ =>
          match boolean_convert value with
          | VBool b => Ok (VBool b)
          | _ => Fail (createError "boolean.base")
          end
      | JArray _ inclusion =>
          match array_parse value with
          | VArr l =>
              let validate_item :=
                match inclusion with
                | Some item => Some (_validate item options)
                | None => None
                end in
              match checkItems (flags_error flags) validate_item 0 l with
              | Fail e => Fail e
              | Ok l' =>
                  match run_tests array_test (tests flags) l' with
                  | Some ty => Fail (createError ty)
                  | None => Ok (VArr l')
                  end
              end
          | _ => Fail (createError "array.base")
          end
      | JObject _ children =>
          match object_parse value with
          | VObj props =>
              match children with
              | None => Ok (VObj props)
              | Some children =>
                  match validate_children (flags_error flags)
                          (fun child => _validate child options) children props with
                  | Fail e => Fail e
                  | Ok target =>
                      match unprocessed children props with
                      | k :: _ =>
                          if allowUnknown options then Ok (VObj target)
                          else Fail (Err "object.allowUnknown" (Some (Key k)) None None)
                      | [] => Ok (VObj target)
                      end
                  end
              end
          | _ => Fail (createError "object.base")
          end
      end
  end.

(** [Joi.validate(value, schema)], with no options of the caller's. *)
Definition validate (value : JS.value) (s : schema) : validation :=
  match _validate s defaults value with
  | Fail e => Invalid (process [] e)
  | Ok v => Valid v
  end.

End Validation.

(** *** The fluent interface *)

Definition string : schema := JString any.
Definition number : schema := JNumber any.
Definition boolean : schema := JBoolean any.
Definition array : schema := JArray any None.
Definition object : schema := JObject any None.

Definition set_presence (p : presence_flag) (c : common) : common :=
  {| presence := Some p; default_value := default_value c;
     flags_error := flags_error c; settings := settings c; tests := tests c |}.
Definition set_default (v : value) (c : common) : common :=
  {| presence := presence c; default_value := v;
     flags_error := flags_error c; settings := settings c; tests := tests c |}.
Definition set_error (message : String.string) (c : common) : common :=
  {| presence := presence c; default_value := default_value c;
     flags_error := Some message; settings := settings c; tests := tests c |}.
Definition set_settings (o : settings_t) (c : common) : common :=
  {| presence := presence c; default_value := default_value c;
     flags_error := flags_error c; settings := Some o; tests := tests c |}.
Definition add_test (t : test) (c : common) : common :=
  {| presence := presence c; default_value := default_value c;
     flags_error := flags_error c; settings := settings c;
     tests := (tests c ++ [t])%list |}.

Definition optional : schema -> schema := with_common (set_presence Optional).
Definition required : schema -> schema := with_common (set_presence Required).
Definition default (v : value) : schema -> schema := with_common (set_default v).
(** [error(new Error(message))] *)
Definition error (message : String.string) : schema -> schema := with_common (set_error message).
(** [options({ allowUnknown })] *)
Definition options (o : settings_t) : schema -> schema := with_common (set_settings o).
Definition min (limit : Z) : schema -> schema := with_common (add_test (Min limit)).
Definition max (limit : Z) : schema -> schema := with_common (add_test (Max limit)).
Definition integer : schema -> schema := with_common (add_test Integer).
Definition regex (alts : list String.string) : schema -> schema :=
  with_common (add_test (Regex (Alternatives alts))).

(** [array.items(schema)] *)
Definition items (item : schema) (s : schema) : schema :=
  match s with
  | JArray c _ => JArray c (Some item)
  | _ => s
  end.
(** [object.keys({ k1: s1, ... })] on an object schema without keys. *)
Definition keys (children : list (String.string * schema)) (s : schema) : schema :=
  match s with
  | JObject c _ => JObject c (Some children)
  | _ => s
  end.

End Joi.

(** ** Validate *)

(** [s.f(...)] *)
Notation "s .> f" := (f s) (at level 45, left associativity, only parsing).

(** ["name"], in double quotes. *)
Definition quoted (name : string) : string :=
  String "034" (name +:+ String "034" "").

(** The messages of the errors given to [error()]. *)
Definition serviceName_required : string :=
  quoted "serviceName" +:+ " is required".
Definition functionName_required : string :=
  quoted "endpoints.function.functionName" +:+ " is required".
Definition usagePlanName_required : string :=
  quoted "usagePlan.usagePlanName" +:+ " is required".

Definition usagePlanScheme : list (string * Joi.schema) :=
  [ ("usagePlanId", Joi.string .> Joi.optional);
    ("usagePlanDesc", Joi.string .> Joi.max 200 .> Joi.optional);
    ("maxRequestNum",
      Joi.number .> Joi.integer .> Joi.min 1 .> Joi.max 99999999
        .> Joi.optional .> Joi.default (VNum (Int (-1))));
    ("maxRequestNumPreSec",
      Joi.number .> Joi.integer .> Joi.min 1 .> Joi.max 2000
        .> Joi.optional .> Joi.default (VNum (Int 1000)));
    ("usagePlanName",
      Joi.string .> Joi.min 2 .> Joi.max 50 .> Joi.required
        .> Joi.error usagePlanName_required) ].

(** The keys of [function]. *)
Definition functionScheme : list (string * Joi.schema) :=
  [ ("isIntegratedResponse",
      Joi.boolean .> Joi.optional .> Joi.default (VBool false));
    ("functionQualifier",
      Joi.string .> Joi.optional .> Joi.default (VStr "$LATEST"));
    ("functionName",
      Joi.string .> Joi.required
        .> Joi.error functionName_required) ].

(** The plain object given for [auth] is compiled to [Joi.object().keys]. *)
Definition authScheme : list (string * Joi.schema) :=
  [ ("serviceTimeout",
      Joi.number .> Joi.integer .> Joi.optional .> Joi.default (VNum (Int 15)));
    ("secretName", Joi.string .> Joi.required);
    ("secretIds", Joi.array .> Joi.max 100) ].

(** The keys of an element of [endpoints]. *)
Definition endpointScheme : list (string * Joi.schema) :=
  [ ("apiId", Joi.string .> Joi.optional);
    ("description", Joi.string .> Joi.max 200 .> Joi.optional);
    ("enableCORS", Joi.boolean .> Joi.optional .> Joi.default (VBool false));
    ("path", Joi.string .> Joi.required);
    ("method",
      Joi.string .> Joi.regex ["GET"; "POST"; "PUT"; "DELETE"; "HEAD"; "ANY"]
        .> Joi.required);
    ("function", Joi.object .> Joi.keys functionScheme .> Joi.required);
    ("usagePlan", Joi.object .> Joi.keys usagePlanScheme);
    ("auth", Joi.object .> Joi.keys authScheme) ].

(** The schema given to [items()]. *)
Definition endpointItem : Joi.schema := Joi.object .> Joi.keys endpointScheme.

Definition endpointsScheme : Joi.schema :=
  Joi.array .> Joi.max 100 .> Joi.items endpointItem .> Joi.required.

(** The keys of [globalScheme]. *)
Definition globalKeys : list (string * Joi.schema) :=
  [ ("region", Joi.string .> Joi.optional .> Joi.default (VStr "ap-guangzhou"));
    ("serviceId", Joi.string .> Joi.optional);
    ("protocol",
      Joi.string .> Joi.regex ["http"; "https"; "http&https"]
        .> Joi.optional .> Joi.default (VStr "http"));
    ("serviceName",
      Joi.string .> Joi.min 2 .> Joi.max 50 .> Joi.required
        .> Joi.error serviceName_required);
    ("description", Joi.string .> Joi.max 200 .> Joi.optional);
    ("environment",
      Joi.string .> Joi.regex ["prepub"; "test"; "release"]
        .> Joi.optional .> Joi.default (VStr "release"));
    ("endpoints", endpointsScheme) ].

Definition globalScheme : Joi.schema :=
  Joi.object .> Joi.keys globalKeys
    .> Joi.options {| Joi.allowUnknown := true |}.

(** [Validate(config = {})] *)
Definition Validate `{Joi.Host} (config : value) : completion Joi.exception value :=
  let config := match config with VUndefined => VObj [] | _ => config end in
  let gloalResult := Joi.validate config globalScheme in
  match gloalResult with
  | Joi.Invalid error => Throw error
  | Joi.Valid value => Return value
  end.

(** ** The order of validation

    [Joi.validate] stops at the first error, and it validates the keys of an
    object in the order of [keys()] and the elements of an array in order.
    The functions below say that the validation of a configuration gets as
    far as a given place. *)

Section Order.
Context `{Joi.Host}.

(** The options in force below [globalScheme], which sets [allowUnknown]. *)
Definition inner : Joi.settings_t := {| Joi.allowUnknown := true |}.

(** [s] accepts [v]. *)
Definition passes (s : Joi.schema) (v : value) : bool :=
  match Joi._validate s inner v with
  | Joi.Ok _ => true
  | Joi.Fail _ => false
  end.

Definition defined (v : value) : bool :=
  match v with
  | VUndefined => false
  | _ => true
  end.

(** An element [x] of an array passes and is taken as [x']. *)
Definition accepted (validate_item : value → Joi.result value) (x x' : value) : Prop :=
  defined x = true ∧ validate_item x = Joi.Ok x' ∧ defined x' = true.

(** The children validated before the child of key [k]. *)
Fixpoint before (k : string) (children : list (string * Joi.schema))
    : list (string * Joi.schema) :=
  match children with
  | [] => []
  | (k', c) :: children' =>
      if String.eqb k k' then [] else (k', c) :: before k children'
  end.

(** Every child of [children] accepts the property of [o] it validates. *)
Definition fields_pass (children : list (string * Joi.schema)) (o : object) : bool :=
  forallb (fun kc => passes kc.2 (get kc.1 o)) children.

(** The element [i] of [endpoints], an object, when the validation gets to
    it: the keys before [endpoints] and the elements before [i] pass. *)
Definition endpoint_reached (o : object) (i : nat) : option object :=
  if fields_pass (before "endpoints" globalKeys) o then
    match get "endpoints" o with
    | VArr l =>
        if forallb (fun x => defined x && passes endpointItem x) (take i l) then
          match l !! i with
          | Some (VObj e) => Some e
          | _ => None
          end
        else None
    | _ => None
    end
  else None.

(** The object at key [k] of the element [i] of [endpoints], when the
    validation gets to it. *)
Definition child_reached (k : string) (o : object) (i : nat) : option object :=
  match endpoint_reached o i with
  | Some e =>
      if fields_pass (before k endpointScheme) e then
        match get k e with
        | VObj x => Some x
        | _ => None
        end
      else None
  | None => None
  end.

(** [s] accepts [v] and returns it as it is. *)
Definition unchanged (s : Joi.schema) (v : value) : Prop :=
  Joi._validate s inner v = Joi.Ok v.

(** What [s] returns for a value it accepts, [s] returns as it is. *)
Definition idempotent (s : Joi.schema) : Prop :=
  ∀ v v', defined v = true → Joi._validate s inner v = Joi.Ok v' →
          defined v' = true ∧ unchanged s v'.

(** The default of [s], where a key left out can get it, is returned as
    it is. *)
Definition default_unchanged (s : Joi.schema) : Prop :=
  Joi.presence (Joi.common_of s) = Some Joi.Required ∨
  unchanged s (Joi.default_value (Joi.common_of s)).
End Order.

(** ** The shape of a configuration

    The data model of the specification, section 3, as a check on a
    configuration that is independent of the schema: the keys of each
    object, their types, bounds and literal sets. A string is a string with
    at least one character, a number is given as a number, and an integer
    without bounds is one JavaScript represents exactly. *)

Definition is_string (min max : Z) (v : value) : bool :=
  match v with
  | VStr s =>
      negb (String.eqb s "") &&
      (min <=? Z.of_nat (String.length s)) && (Z.of_nat (String.length s) <=? max)
  | _ => false
  end.

Definition any_string (v : value) : bool :=
  match v with
  | VStr s => negb (String.eqb s "")
  | _ => false
  end.

Definition one_of (literals : list string) (v : value) : bool :=
  match v with
  | VStr s => existsb (String.eqb s) literals
  | _ => false
  end.

Definition is_boolean (v : value) : bool :=
  match v with
  | VBool _ => true
  | _ => false
  end.

Definition is_integer (min max : Z) (v : value) : bool :=
  match v with
  | VNum (Int z) => (min <=? z) && (z <=? max)
  | _ => false
  end.

Definition is_object (shape : object → bool) (v : value) : bool :=
  match v with
  | VObj o => shape o
  | _ => false
  end.

Definition is_sequence (max : nat) (element : value → bool) (v : value) : bool :=
  match v with
  | VArr l => (length l <=? max)%nat && forallb element l
  | _ => false
  end.

(** An optional key: left out, or of the given shape. *)
Definition optionally (shape : value → bool) (v : value) : bool :=
  match v with
  | VUndefined => true
  | _ => shape v
  end.

Definition FunctionBinding (f : object) : bool :=
  optionally is_boolean (get "isIntegratedResponse" f) &&
  optionally any_string (get "functionQualifier" f) &&
  any_string (get "functionName" f).

Definition UsagePlan (u : object) : bool :=
  optionally any_string (get "usagePlanId" u) &&
  optionally (is_string 1 200) (get "usagePlanDesc" u) &&
  optionally (is_integer 1 99999999) (get "maxRequestNum" u) &&
  optionally (is_integer 1 2000) (get "maxRequestNumPreSec" u) &&
  is_string 2 50 (get "usagePlanName" u).

Definition AuthConfig (a : object) : bool :=
  optionally (is_integer (- Joi.MAX_SAFE_INTEGER) Joi.MAX_SAFE_INTEGER)
    (get "serviceTimeout" a) &&
  any_string (get "secretName" a) &&
  optionally (is_sequence 100 any_string) (get "secretIds" a).

Definition Endpoint (e : object) : bool :=
  optionally any_string (get "apiId" e) &&
  optionally (is_string 1 200) (get "description" e) &&
  optionally is_boolean (get "enableCORS" e) &&
  any_string (get "path" e) &&
  one_of ["GET"; "POST"; "PUT"; "DELETE"; "HEAD"; "ANY"] (get "method" e) &&
  is_object FunctionBinding (get "function" e) &&
  optionally (is_object UsagePlan) (get "usagePlan" e) &&
  optionally (is_object AuthConfig) (get "auth" e).

Definition ServiceConfig (o : object) : bool :=
  optionally any_string (get "region" o) &&
  optionally any_string (get "serviceId" o) &&
  optionally (one_of ["http"; "https"; "http&https"]) (get "protocol" o) &&
  is_string 2 50 (get "serviceName" o) &&
  optionally (is_string 1 200) (get "description" o) &&
  optionally (one_of ["prepub"; "test"; "release"]) (get "environment" o) &&
  is_sequence 100 (is_object Endpoint) (get "endpoints" o).

(** ** Example configurations *)

(** A runtime for the examples. It agrees with JavaScript's on every string
    they contain: none of them is a decimal numeral or a JSON text, so the
    number type reports [number.base] and [JSON.parse] throws. *)
Definition example_host : Joi.Host :=
  {| Joi.number_of_string := fun _ => Joi.BaseError "number.base";
     Joi.JSON_parse := fun _ => None |}.

(** [{ path: '/', method: 'GET', function: fn }] *)
Definition endpoint_with (fn : object) : object :=
  [("path", VStr "/"); ("method", VStr "GET"); ("function", VObj fn)].

(** [{ serviceName: 'svc', endpoints: [endpoint] }] *)
Definition service_with (endpoint : object) : object :=
  [("serviceName", VStr "svc"); ("endpoints", VArr [VObj endpoint])].

(** A client that resolves with what it was called with. *)
Definition echo_client : CapiInstance :=
  fun data options isV3 =>
    Resolved (VObj [("code", VNum (Int 0)); ("data", VObj data);
                    ("options", VObj options); ("isV3", VBool isV3)]).


(** An endpoint with a usage plan and an auth. *)
Definition full_endpoint : object :=
  (endpoint_with [("functionName", VStr "f")] ++
   [("usagePlan", VObj [("usagePlanName", VStr "plan")]);
    ("auth", VObj [("secretName", VStr "secret")])])%list.

(** A key left out of [input] has the value [d] in [output]. *)
Definition populated (k : string) (d : value) (input output : object) : Prop :=
  get k input = VUndefined → get k output = d.

(** The configuration [o], whose [endpoints] is [l], with [e'] in place of
    the element [i] of [endpoints]. *)
Definition replace_endpoint (o : object) (l : list value) (i : nat) (e' : object)
    : object :=
  assign "endpoints" (VArr (<[i := VObj e']> l)) o.

(** * Properties *)

(** A decidable proposition that holds by computation. *)
Ltac by_computation := apply (bool_decide_unpack _); by vm_compute.

(** ** Objects *)

Section ObjectFacts.
Context {A : Type}.
Implicit Types (o t : list (string * A)) (k : string) (v : A).

Lemma own_assign k k' v o :
  own k (assign k' v o) = if decide (k = k') then Some v else own k o.
Proof.
  induction o as [|[k0 v0] o IH]; simpl.
  - destruct (String.eqb_spec k k'); case_decide; congruence.
  - destruct (String.eqb_spec k' k0) as [->|Hne]; simpl.
    + destruct (String.eqb_spec k k0); case_decide; congruence.
    + destruct (String.eqb_spec k k0) as [->|]; [|done].
      case_decide; congruence.
Qed.

Lemma own_assign_eq k v o : own k (assign k v o) = Some v.
Proof. rewrite own_assign. by case_decide. Qed.

Lemma own_assign_ne k k' v o : k ≠ k' → own k (assign k' v o) = own k o.
Proof. intros. rewrite own_assign. by case_decide. Qed.

Lemma own_None k o : own k o = None ↔ k ∉ JS.keys o.
Proof.
  induction o as [|[k0 v0] o IH]; simpl.
  - split; [intros _; apply not_elem_of_nil | done].
  - rewrite not_elem_of_cons.
    destruct (String.eqb_spec k k0); [| tauto].
    split; [done | by intros [? _]].
Qed.

Lemma own_Some_keys k v o : own k o = Some v → k ∈ JS.keys o.
Proof.
  intros Hk. destruct (decide (k ∈ JS.keys o)) as [|Hn]; [done|].
  apply own_None in Hn. congruence.
Qed.

Lemma keys_assign k v o :
  JS.keys (assign k v o) =
  if decide (k ∈ JS.keys o) then JS.keys o else (JS.keys o ++ [k])%list.
Proof.
  induction o as [|[k0 v0] o IH]; cbn [assign JS.keys map fst].
  - rewrite decide_False; [done | apply not_elem_of_nil].
  - destruct (String.eqb_spec k k0) as [->|Hne]; cbn [map fst].
    + rewrite decide_True; [done | left].
    + fold (JS.keys (assign k v o)). rewrite IH. unfold JS.keys.
      destruct (decide (k ∈ map fst o)) as [Hin|Hin].
      * rewrite decide_True; [done | by right].
      * rewrite decide_False; [done |]. rewrite not_elem_of_cons. tauto.
Qed.

Lemma well_formed_assign k v o : well_formed o → well_formed (assign k v o).
Proof.
  unfold well_formed. intros Hwf. rewrite keys_assign.
  case_decide as Hin; [done |].
  apply NoDup_app. split_and!; [done | | apply NoDup_singleton].
  intros x Hx Hx'. apply list_elem_of_singleton in Hx'. by subst.
Qed.

(** Reading a spread: the source's property if it has one, else the
    target's. *)
Lemma own_spread k t o :
  well_formed o →
  own k (spread t o) = match own k o with Some v => Some v | None => own k t end.
Proof.
  unfold spread, well_formed.
  revert t. induction o as [|[k0 v0] o IH]; intros t Hwf; simpl; [done |].
  simpl in Hwf. apply NoDup_cons in Hwf as [Hk0 Hwf].
  rewrite IH by done.
  destruct (String.eqb_spec k k0) as [->|Hne].
  - apply own_None in Hk0. unfold JS.keys. rewrite Hk0.
    apply own_assign_eq.
  - destruct (own k o); [done |]. by apply own_assign_ne.
Qed.

(** One assignment per element of a list without repetition. *)
Lemma fold_assign (f : string → A) (l : list string) o :
  NoDup l → (∀ k, k ∈ l → k ∉ JS.keys o) →
  fold_left (fun acc item => assign item (f item) acc) l o =
  (o ++ map (fun item => (item, f item)) l)%list.
Proof.
  revert o. induction l as [|x l IH]; intros o Hnd Hfresh; simpl.
  - by rewrite app_nil_r.
  - apply NoDup_cons in Hnd as [Hx Hnd].
    assert (assign x (f x) o = (o ++ [(x, f x)])%list) as ->.
    { specialize (Hfresh x (list_elem_of_here _ _)). clear -Hfresh.
      induction o as [|[k0 v0] o IH]; simpl; [done |].
      simpl in Hfresh. apply not_elem_of_cons in Hfresh as [Hne Hfresh].
      destruct (String.eqb_spec x k0); [done |]. by rewrite IH. }
    rewrite IH; [by rewrite <- app_assoc | done |].
    intros k Hk. unfold JS.keys. rewrite map_app. simpl.
    rewrite elem_of_app, list_elem_of_singleton.
    intros [Hin| ->]; [| done].
    by apply (Hfresh k); [right |].
Qed.

Lemma own_tabulate (f : string → A) (l : list string) k :
  own k (map (fun item => (item, f item)) l) =
  if decide (k ∈ l) then Some (f k) else None.
Proof.
  induction l as [|x l IH]; cbn [own map].
  - rewrite decide_False; [done | apply not_elem_of_nil].
  - destruct (String.eqb_spec k x) as [->|Hne].
    + rewrite decide_True; [done | left].
    + rewrite IH. destruct (decide (k ∈ l)).
      * rewrite decide_True; [done | by right].
      * rewrite decide_False; [done |]. rewrite not_elem_of_cons. tauto.
Qed.
End ObjectFacts.

Lemma get_assign k k' v (o : object) :
  get k (assign k' v o) = if decide (k = k') then v else get k o.
Proof. unfold get. rewrite own_assign. by case_decide. Qed.

Lemma get_assign_eq k v (o : object) : get k (assign k v o) = v.
Proof. rewrite get_assign. by case_decide. Qed.

Lemma get_assign_ne k k' v (o : object) : k ≠ k' → get k (assign k' v o) = get k o.
Proof. intros. rewrite get_assign. by case_decide. Qed.

(** ** Strings *)

Lemma append_cons a s t : String a s +:+ t = String a (s +:+ t).
Proof. reflexivity. Qed.

Lemma append_nil t : "" +:+ t = t.
Proof. reflexivity. Qed.

Lemma starts_with_spec needle haystack :
  starts_with needle haystack = true ↔ ∃ post, haystack = needle +:+ post.
Proof.
  revert haystack. induction needle as [|a n IH]; intros [|b h]; simpl.
  - split; [by exists "" | done].
  - split; [by exists (String b h) | done].
  - split; [done | by intros [post ?]].
  - destruct (Ascii.eqb_spec a b) as [->|Hne].
    + rewrite IH. split; intros [post Hp]; exists post;
        rewrite append_cons in *; congruence.
    + split; [done | intros [post Hp]; rewrite append_cons in Hp; congruence].
Qed.

Lemma matches_spec s pattern : matches s pattern = true ↔ occurs pattern s.
Proof.
  induction s as [|a s IH]; simpl.
  - rewrite orb_false_r, starts_with_spec. split.
    + intros [post Hp]. by exists "", post.
    + intros ([|b pre] & post & Hp); [by exists post | done].
  - rewrite orb_true_iff, starts_with_spec, IH. split.
    + intros [[post Hp]|(pre & post & Hp)].
      * by exists "", post.
      * exists (String a pre), post. by rewrite append_cons, Hp.
    + intros ([|b pre] & post & Hp).
      * left. by exists post.
      * right. exists pre, post. rewrite append_cons in Hp. congruence.
Qed.

Lemma indexOf_from_spec i l x :
  0 <= i → indexOf_from i l x = -1 ↔ x ∉ l.
Proof.
  revert i. induction l as [|y l IH]; intros i Hi; simpl.
  - split; [intros _; apply not_elem_of_nil | done].
  - rewrite not_elem_of_cons. destruct (String.eqb_spec y x) as [->|Hne].
    + split; [lia | by intros [? _]].
    + rewrite IH by lia. split; [by split; [congruence |] | by intros [_ ?]].
Qed.

Lemma indexOf_spec l x : negb (indexOf l x =? -1) = bool_decide (x ∈ l).
Proof.
  unfold indexOf. destruct (Z.eqb_spec (indexOf_from 0 l x) (-1)) as [Heq|Hne]; simpl.
  - apply indexOf_from_spec in Heq; [| lia]. by rewrite bool_decide_eq_false_2.
  - rewrite bool_decide_eq_true_2; [done |].
    destruct (decide (x ∈ l)) as [|Hn]; [done |].
    by apply (indexOf_from_spec 0) in Hn.
Qed.

(** ** The dispatcher *)

Section Dispatcher.
Import ApiGwRequest.
Variable apiRequest : CapiInstance.

Lemma actionList_NoDup : NoDup actionList.
Proof. by_computation. Qed.

Lemma apiFactory_entries :
  apiFactory apiRequest =
  map (fun item => (item, entry apiRequest item)) actionList.
Proof.
  apply (fold_assign (entry apiRequest) actionList []); [apply actionList_NoDup |].
  intros k _. apply not_elem_of_nil.
Qed.

Lemma apiFactory_own action :
  own action (apiFactory apiRequest) =
  if decide (action ∈ actionList) then Some (entry apiRequest action) else None.
Proof. rewrite apiFactory_entries. apply own_tabulate. Qed.
End Dispatcher.

Section Responses.
Import ApiGwRequest.

Lemma strict_neq_zero_false (v : value) :
  strict_neq_zero v = false ↔ v = VNum (Int 0).
Proof.
  destruct v as [| | |[[| |]| | |]| | |]; simpl; split; intros; congruence.
Qed.

(** On a response that is an object, which is truthy. *)
Lemma CheckExistsFromError_object (res : object) :
  CheckExistsFromError (VObj res) =
  match get "message" res with
  | VStr message =>
      Return (negb (matches message "does not exist" || matches message "not found"))
  | _ => Throw TypeError
  end.
Proof.
  unfold CheckExistsFromError, message_matches. cbn [truthy member].
  destruct (get "message" res) as [| | | |message| |]; try done.
  by destruct (matches message "does not exist"), (matches message "not found").
Qed.

(** On a response that is not [undefined] or [null], and is falsy or has no
    string for [message]. *)
Lemma CheckExistsFromError_falsy (res : value) :
  truthy res = false → CheckExistsFromError res = Return true.
Proof. intros Hfalsy. unfold CheckExistsFromError, message_matches. by rewrite Hfalsy. Qed.

Lemma CheckExistsFromError_no_match (res message : value) :
  truthy res = true →
  member "message" res = Return message →
  (∀ m, message ≠ VStr m) →
  CheckExistsFromError res = Throw TypeError.
Proof.
  intros Htruthy Hmember Hmessage. unfold CheckExistsFromError, message_matches.
  rewrite Htruthy, Hmember. destruct message as [| | | |m| |]; try done.
  by destruct (Hmessage m).
Qed.

(** Only a response that is an object can have a [message] that matches. *)
Lemma CheckExistsFromError_false (res : value) :
  CheckExistsFromError res = Return false → ∃ o : object, res = VObj o.
Proof.
  destruct res as [| |[]|[[| |]| | |]|[|a s]|l|o]; try done. intros _. by exists o.
Qed.

(** [request], by what the client's call settled with. *)
Lemma request_settled (apiRequest : CapiInstance) Action data options isV3 needCheck :
  request apiRequest Action data options isV3 needCheck =
  match apiRequest (request_data Action data) (request_options options)
          (default false isV3) with
  | Rejected err => Rejected err
  | Resolved res =>
      match member "code" res, member "message" res with
      | Return code, Return message =>
          if strict_neq_zero code then
            if default false needCheck then
              match CheckExistsFromError res with
              | Throw err => Rejected err
              | Return true => Rejected (HttpError code message)
              | Return false => Resolved res
              end
            else Rejected (HttpError code message)
          else Resolved res
      | _, _ => Rejected TypeError
      end
  end.
Proof.
  unfold request. cbv zeta.
  destruct (apiRequest _ _ _) as [res|err]; [| done].
  by destruct res.
Qed.

(** The client is called with [request_data], [request_options] and
    [isV3]: [request] rejects as that call does, and a response of [code]
    0 is what it resolves with. *)
Lemma request_sent (apiRequest : CapiInstance) Action data options isV3 needCheck :
  let sent := apiRequest (request_data Action data) (request_options options)
                (default false isV3) in
  request apiRequest Action data options isV3 needCheck =
    request (fun _ _ _ => sent) Action data options isV3 needCheck ∧
  (∀ err, sent = Rejected err →
     request apiRequest Action data options isV3 needCheck = Rejected err) ∧
  (∀ res, sent = Resolved (VObj res) → get "code" res = VNum (Int 0) →
     request apiRequest Action data options isV3 needCheck = Resolved (VObj res)).
Proof.
  intros sent. split_and!; [done | ..].
  - intros err Hsent. rewrite request_settled. fold sent. by rewrite Hsent.
  - intros res Hsent Hcode. rewrite request_settled. fold sent. rewrite Hsent.
    cbn [member]. by rewrite Hcode.
Qed.
End Responses.

(** ** The loops of Joi *)

Section LoopFacts.
Variable override : option string.
Variable validate_child : Joi.schema → value → Joi.result value.
Implicit Types (children : list (string * Joi.schema)) (target out : object).

Lemma get_store k k' v target :
  get k (Joi.store k' v target) =
  if decide (k = k') then (if defined v then v else get k target) else get k target.
Proof.
  destruct v; simpl; rewrite ?get_assign; by case_decide.
Qed.

Lemma own_store_ne k k' v target :
  k ≠ k' → own k (Joi.store k' v target) = own k target.
Proof. intros. destruct v; simpl; by rewrite ?own_assign_ne. Qed.

Lemma get_store_ne k k' v target :
  k ≠ k' → get k (Joi.store k' v target) = get k target.
Proof. intros. unfold get. by rewrite own_store_ne. Qed.

(** A key no child has is left as it was. *)
Lemma validate_children_frame children target out k :
  Joi.validate_children override validate_child children target = Joi.Ok out →
  k ∉ map fst children → own k out = own k target.
Proof.
  revert target. induction children as [|[k0 c0] children IH]; intros target; simpl.
  - by intros [= ->].
  - destruct (validate_child c0 (get k0 target)) as [v|e]; [| done].
    intros Hout [Hne Hk]%not_elem_of_cons.
    rewrite (IH _ Hout Hk). by apply own_store_ne.
Qed.

(** When the loop ends well, every child accepted the property it read in
    the object the loop started with, and its value, unless [undefined],
    is the property of the result. *)
Lemma validate_children_Ok children target out k c :
  NoDup (map fst children) →
  Joi.validate_children override validate_child children target = Joi.Ok out →
  (k, c) ∈ children →
  ∃ v, validate_child c (get k target) = Joi.Ok v ∧
       get k out = if defined v then v else get k target.
Proof.
  revert target. induction children as [|[k0 c0] children IH]; intros target; simpl.
  - intros _ _ Hin. by apply elem_of_nil in Hin.
  - intros [Hk0 Hnd]%NoDup_cons.
    destruct (validate_child c0 (get k0 target)) as [v|e] eqn:Hc0; [| done].
    intros Hout [[= -> ->]|Hin]%elem_of_cons.
    + exists v. split; [done |].
      unfold get at 1. rewrite (validate_children_frame _ _ _ _ Hout Hk0).
      fold (get k0 (Joi.store k0 v target)). rewrite get_store. by case_decide.
    + destruct (IH _ Hnd Hout Hin) as (v' & Hv' & Hget).
      assert (k ≠ k0) as Hne.
      { intros ->. apply Hk0. by apply (list_elem_of_fmap_2 fst _ (k0, c)). }
      rewrite get_store_ne in Hv', Hget by done. by exists v'.
Qed.

(** The loop ends well when every child accepts the property it reads. *)
Lemma validate_children_Ok_intro children target :
  NoDup (map fst children) →
  (∀ k c, (k, c) ∈ children → ∃ v, validate_child c (get k target) = Joi.Ok v) →
  ∃ out, Joi.validate_children override validate_child children target = Joi.Ok out.
Proof.
  revert target. induction children as [|[k0 c0] children IH]; intros target; simpl.
  - by exists target.
  - intros [Hk0 Hnd]%NoDup_cons Hall.
    destruct (Hall k0 c0) as [v ->]; [left |].
    apply IH; [done |]. intros k c Hin.
    rewrite get_store_ne; [apply Hall; by right |].
    intros ->. apply Hk0. by apply (list_elem_of_fmap_2 fst _ (k0, c)).
Qed.

(** The first child that rejects its property ends the loop. *)
Lemma validate_children_first_failure pre k c post target e :
  NoDup (map fst pre) → k ∉ map fst pre →
  (∀ k' c', (k', c') ∈ pre → ∃ v, validate_child c' (get k' target) = Joi.Ok v) →
  validate_child c (get k target) = Joi.Fail e →
  Joi.validate_children override validate_child (pre ++ (k, c) :: post) target =
  Joi.Fail (Joi.Err "object.child" (Some (Joi.Key k)) override (Some e)).
Proof.
  revert target. induction pre as [|[k0 c0] pre IH]; intros target; simpl.
  - intros _ _ _ ->. done.
  - intros [Hk0 Hnd]%NoDup_cons [Hne Hk]%not_elem_of_cons Hall Hfail.
    destruct (Hall k0 c0) as [v ->]; [left |].
    apply IH; [done | done | |].
    + intros k' c' Hin. rewrite get_store_ne; [apply Hall; by right |].
      intros ->. apply Hk0. by apply (list_elem_of_fmap_2 fst _ (k0, c')).
    + by rewrite get_store_ne.
Qed.
End LoopFacts.

Section ItemFacts.
Variable override : option string.
Implicit Types (validate_item : value → Joi.result value) (l : list value).

Lemma checkItems_cons (item_schema : option (value → Joi.result value)) i x l :
  Joi.checkItems override item_schema i (x :: l) =
  let sparse := Joi.Fail (Joi.Err "array.sparse" (Some (Joi.Pos i)) override None) in
  let continue x' :=
    match Joi.checkItems override item_schema (S i) l with
    | Joi.Ok l' => Joi.Ok (x' :: l')
    | Joi.Fail e => Joi.Fail e
    end in
  if defined x then
    match item_schema with
    | None => continue x
    | Some validate_item =>
        match validate_item x with
        | Joi.Fail e =>
            Joi.Fail (Joi.Err "array.includesOne" (Some (Joi.Pos i)) override (Some e))
        | Joi.Ok x' => if defined x' then continue x' else sparse
        end
    end
  else sparse.
Proof.
  destruct x; [reflexivity | ..];
    (destruct item_schema as [f|]; [| reflexivity]);
    cbn [Joi.checkItems defined]; by destruct (f _) as [[]|].
Qed.

Lemma checkItems_Ok validate_item i l l' :
  Joi.checkItems override (Some validate_item) i l = Joi.Ok l' →
  Forall2 (accepted validate_item) l l'.
Proof.
  revert i l'. induction l as [|x l IH]; intros i l'.
  - intros [= <-]. constructor.
  - rewrite checkItems_cons. cbv zeta.
    destruct (defined x) eqn:Hx; [| done].
    destruct (validate_item x) as [x'|] eqn:Hvx; [| done].
    destruct (defined x') eqn:Hx'; [| done].
    destruct (Joi.checkItems _ _ (S i) l) as [l''|] eqn:Hl; [| done].
    intros [= <-]. constructor; [done | by eapply IH].
Qed.

Lemma checkItems_None_Ok i l l' :
  Joi.checkItems override None i l = Joi.Ok l' → l' = l.
Proof.
  revert i l'. induction l as [|x l IH]; intros i l'.
  - by intros [= <-].
  - rewrite checkItems_cons. cbv zeta.
    destruct (defined x) eqn:Hx; [| done].
    destruct (Joi.checkItems _ _ (S i) l) as [l''|] eqn:Hl; [| done].
    intros [= <-]. f_equal. by eapply IH.
Qed.

Lemma checkItems_length item_schema i l l' :
  Joi.checkItems override item_schema i l = Joi.Ok l' → length l' = length l.
Proof.
  destruct item_schema as [f|].
  - intros Hok%checkItems_Ok. symmetry. by eapply Forall2_length.
  - by intros ->%checkItems_None_Ok.
Qed.

Lemma checkItems_Ok_intro validate_item i l :
  Forall (fun x => ∃ x', accepted validate_item x x') l →
  ∃ l', Joi.checkItems override (Some validate_item) i l = Joi.Ok l'.
Proof.
  intros Hall. revert i. induction Hall as [|x l (x' & Hx & Hvx & Hx') _ IH]; intros i.
  - by exists [].
  - rewrite checkItems_cons. cbv zeta. rewrite Hx, Hvx, Hx'.
    destruct (IH (S i)) as [l' ->]. by eexists.
Qed.

(** The first element the schema of [items()] rejects ends the loop. *)
Lemma checkItems_first_failure validate_item i pre x post e :
  Forall (fun y => ∃ y', accepted validate_item y y') pre →
  defined x = true →
  validate_item x = Joi.Fail e →
  Joi.checkItems override (Some validate_item) i (pre ++ x :: post) =
  Joi.Fail (Joi.Err "array.includesOne" (Some (Joi.Pos (i + length pre))) override (Some e)).
Proof.
  intros Hall Hx Hfail. revert i.
  induction Hall as [|y pre (y' & Hy & Hvy & Hy') _ IH]; intros i; simpl app.
  - rewrite checkItems_cons. cbv zeta. rewrite Hx, Hfail. simpl.
    by rewrite Nat.add_0_r.
  - rewrite checkItems_cons. cbv zeta. rewrite Hy, Hvy, Hy', IH. simpl.
    by rewrite Nat.add_succ_r.
Qed.
End ItemFacts.

(** ** Validation of a schema *)

Section ValidateFacts.
Context `{Joi.Host}.
Implicit Types (s : Joi.schema) (c : Joi.common) (o props : object).

Lemma validate_undefined s opts :
  Joi._validate s opts VUndefined =
  match Joi.presence (Joi.common_of s) with
  | Some Joi.Required =>
      Joi.Fail (Joi.Err "any.required" None (Joi.flags_error (Joi.common_of s)) None)
  | _ => Joi.Ok (Joi.default_value (Joi.common_of s))
  end.
Proof. by destruct s. Qed.

Lemma validate_object c children opts props :
  Joi._validate (Joi.JObject c (Some children)) opts (VObj props) =
  let opts' := Joi.concatSettings opts (Joi.settings c) in
  match Joi.validate_children (Joi.flags_error c)
          (fun child => Joi._validate child opts') children props with
  | Joi.Fail e => Joi.Fail e
  | Joi.Ok target =>
      match Joi.unprocessed children props with
      | k :: _ =>
          if Joi.allowUnknown opts' then Joi.Ok (VObj target)
          else Joi.Fail (Joi.Err "object.allowUnknown" (Some (Joi.Key k)) None None)
      | [] => Joi.Ok (VObj target)
      end
  end.
Proof. reflexivity. Qed.

(** Under [allowUnknown], an object is validated by its children alone. *)
Lemma validate_object_inner c children props :
  Joi.settings c = None →
  Joi._validate (Joi.JObject c (Some children)) inner (VObj props) =
  match Joi.validate_children (Joi.flags_error c)
          (fun child => Joi._validate child inner) children props with
  | Joi.Fail e => Joi.Fail e
  | Joi.Ok target => Joi.Ok (VObj target)
  end.
Proof.
  intros Hc. rewrite validate_object, Hc. cbn.
  destruct (Joi.validate_children _ _ _ _); [| done].
  by destruct (Joi.unprocessed _ _).
Qed.

Lemma validate_array c item opts l :
  Joi._validate (Joi.JArray c item) opts (VArr l) =
  let opts' := Joi.concatSettings opts (Joi.settings c) in
  let validate_item :=
    match item with
    | Some item => Some (Joi._validate item opts')
    | None => None
    end in
  match Joi.checkItems (Joi.flags_error c) validate_item 0 l with
  | Joi.Fail e => Joi.Fail e
  | Joi.Ok l' =>
      match Joi.run_tests Joi.array_test (Joi.tests c) l' with
      | Some ty => Joi.Fail (Joi.Err ty None (Joi.flags_error c) None)
      | None => Joi.Ok (VArr l')
      end
  end.
Proof. reflexivity. Qed.

(** What an object schema accepts, [undefined] apart, it returns as an
    object. *)
Lemma validate_object_defined c children opts v v' :
  Joi._validate (Joi.JObject c children) opts v = Joi.Ok v' →
  defined v = true → ∃ target, v' = VObj target.
Proof.
  intros Hok Hv.
  assert (∀ props, Joi._validate (Joi.JObject c children) opts (VObj props) = Joi.Ok v' →
                   ∃ target, v' = VObj target) as Hobj.
  { intros props. destruct children as [children|]; [| intros [= <-]; by eexists].
    rewrite validate_object. cbv zeta.
    destruct (Joi.validate_children _ _ _ _) as [target|]; [| done].
    destruct (Joi.unprocessed _ _); [intros [= <-]; by eexists |].
    destruct (Joi.allowUnknown _); [intros [= <-]; by eexists | done]. }
  destruct v as [| | | |str| |props]; try done; [| by eapply Hobj].
  revert Hok. cbn [Joi._validate Joi.object_parse].
  destruct (Joi.JSON_parse str) as [[]|]; try done. apply Hobj.
Qed.

Lemma passes_Ok s v : passes s v = true ↔ ∃ v', Joi._validate s inner v = Joi.Ok v'.
Proof.
  unfold passes. destruct (Joi._validate s inner v); split; try done.
  - by eexists.
  - by intros [? ?].
Qed.

Lemma passes_Fail s v : passes s v = false ↔ ∃ e, Joi._validate s inner v = Joi.Fail e.
Proof.
  unfold passes. destruct (Joi._validate s inner v); split; try done.
  - by intros [? ?].
  - by eexists.
Qed.

Lemma fields_pass_Ok children o :
  fields_pass children o = true ↔
  ∀ k child, (k, child) ∈ children → ∃ v, Joi._validate child inner (get k o) = Joi.Ok v.
Proof.
  unfold fields_pass. rewrite forallb_forall. split.
  - intros Hall k child Hin. apply passes_Ok.
    apply (Hall (k, child)). by apply list_elem_of_In.
  - intros Hall [k child] Hin. apply passes_Ok, Hall. by apply list_elem_of_In.
Qed.
End ValidateFacts.

Section OrderFacts.
Context {A : Type}.
Implicit Types (l : list (string * A)).

Lemma own_elem k l c : own k l = Some c → (k, c) ∈ l.
Proof.
  induction l as [|[k0 c0] l IH]; simpl; [done |].
  destruct (String.eqb_spec k k0) as [->|Hne].
  - intros [= ->]. left.
  - intros Hk. right. by apply IH.
Qed.
End OrderFacts.

Lemma before_split k children c :
  own k children = Some c → ∃ post, children = (before k children ++ (k, c) :: post)%list.
Proof.
  induction children as [|[k0 c0] children IH]; simpl; [done |].
  destruct (String.eqb_spec k k0) as [->|Hne].
  - intros [= ->]. by exists children.
  - intros Hk. destruct (IH Hk) as [post Hpost]. exists post. simpl. by f_equal.
Qed.

Lemma before_fresh k children : k ∉ map fst (before k children).
Proof.
  induction children as [|[k0 c0] children IH]; simpl; [apply not_elem_of_nil |].
  destruct (String.eqb_spec k k0) as [->|Hne]; [apply not_elem_of_nil |].
  simpl. rewrite not_elem_of_cons. tauto.
Qed.

Lemma before_elem k children kc : kc ∈ before k children → kc ∈ children.
Proof.
  induction children as [|[k0 c0] children IH]; simpl; [done |].
  destruct (String.eqb_spec k k0) as [->|Hne]; [by intros ?%elem_of_nil |].
  intros [->|Hin]%elem_of_cons; [left | right; by apply IH].
Qed.

Lemma before_NoDup k children :
  NoDup (map fst children) → NoDup (map fst (before k children)).
Proof.
  induction children as [|[k0 c0] children IH]; simpl; [done |].
  intros [Hk0 Hnd]%NoDup_cons.
  destruct (String.eqb_spec k k0) as [->|Hne]; [constructor |].
  simpl. apply NoDup_cons. split; [| by apply IH].
  intros (kc & -> & Hin)%list_elem_of_fmap. apply Hk0.
  apply list_elem_of_fmap. exists kc. split; [done |]. by eapply before_elem.
Qed.

Section ObjectSchemaFacts.
Context `{Joi.Host}.
Variable c : Joi.common.
Variable children : list (string * Joi.schema).
Hypothesis c_settings : Joi.settings c = None.
Hypothesis children_NoDup : NoDup (map fst children).
Implicit Types (o t : object).

(** The first key whose schema rejects its property is the error of the
    object. *)
Lemma object_first_failure o k child e :
  own k children = Some child →
  fields_pass (before k children) o = true →
  Joi._validate child inner (get k o) = Joi.Fail e →
  Joi._validate (Joi.JObject c (Some children)) inner (VObj o) =
  Joi.Fail (Joi.Err "object.child" (Some (Joi.Key k)) (Joi.flags_error c) (Some e)).
Proof.
  intros Hk Hpre Hfail. rewrite validate_object_inner by done.
  destruct (before_split _ _ _ Hk) as [post Hsplit]. rewrite Hsplit at 1.
  rewrite (validate_children_first_failure _ _ _ _ _ _ _ e); [done | | | | done].
  - by apply before_NoDup.
  - apply before_fresh.
  - by apply fields_pass_Ok.
Qed.

Lemma object_Ok o out :
  Joi._validate (Joi.JObject c (Some children)) inner (VObj o) = Joi.Ok out →
  ∃ t, out = VObj t ∧
       Joi.validate_children (Joi.flags_error c)
         (fun child => Joi._validate child inner) children o = Joi.Ok t.
Proof.
  rewrite validate_object_inner by done.
  destruct (Joi.validate_children _ _ _ _) as [t|]; [| done].
  intros [= <-]. by exists t.
Qed.

(** An accepted object: each key's schema accepted the property, and the
    property of the result is the validated value (the property itself when
    that is [undefined]). *)
Lemma object_Ok_child o t k child :
  Joi._validate (Joi.JObject c (Some children)) inner (VObj o) = Joi.Ok (VObj t) →
  own k children = Some child →
  ∃ v, Joi._validate child inner (get k o) = Joi.Ok v ∧
       get k t = if defined v then v else get k o.
Proof.
  intros (t' & [= <-] & Hloop)%object_Ok Hk%own_elem.
  by eapply (validate_children_Ok _ _ _ _ _ _ _ children_NoDup Hloop).
Qed.

(** A key the schema does not name is in the result as it was. *)
Lemma object_Ok_frame o t k :
  Joi._validate (Joi.JObject c (Some children)) inner (VObj o) = Joi.Ok (VObj t) →
  k ∉ map fst children → own k t = own k o.
Proof.
  intros (t' & [= <-] & Hloop)%object_Ok Hk.
  by eapply validate_children_frame.
Qed.

Lemma object_Ok_intro o :
  fields_pass children o = true →
  ∃ t, Joi._validate (Joi.JObject c (Some children)) inner (VObj o) = Joi.Ok (VObj t).
Proof.
  intros Hall. rewrite validate_object_inner by done.
  destruct (validate_children_Ok_intro (Joi.flags_error c)
              (fun child => Joi._validate child inner) children o) as [t ->];
    [done | by apply fields_pass_Ok | by exists t].
Qed.

Lemma object_Ok_fields_pass o out :
  Joi._validate (Joi.JObject c (Some children)) inner (VObj o) = Joi.Ok out →
  fields_pass children o = true.
Proof.
  intros (t & -> & Hloop)%object_Ok. apply fields_pass_Ok. intros k child Hin.
  destruct (validate_children_Ok _ _ _ _ _ _ _ children_NoDup Hloop Hin) as (v & Hv & _).
  by exists v.
Qed.
End ObjectSchemaFacts.

Section ArraySchemaFacts.
Context `{Joi.Host}.
Variable c : Joi.common.
Hypothesis c_settings : Joi.settings c = None.

Lemma array_Ok item l out :
  Joi._validate (Joi.JArray c (Some item)) inner (VArr l) = Joi.Ok out →
  ∃ l', out = VArr l' ∧
        Forall2 (accepted (Joi._validate item inner)) l l' ∧
        Joi.run_tests Joi.array_test (Joi.tests c) l' = None.
Proof.
  rewrite validate_array, c_settings. cbn.
  destruct (Joi.checkItems _ _ _ _) as [l'|] eqn:Hitems; [| done].
  destruct (Joi.run_tests _ _ _) eqn:Htests; [done |].
  intros [= <-]. exists l'. split_and!; [done | by eapply checkItems_Ok | done].
Qed.

Lemma array_plain_Ok l out :
  Joi._validate (Joi.JArray c None) inner (VArr l) = Joi.Ok out →
  out = VArr l ∧ Joi.run_tests Joi.array_test (Joi.tests c) l = None.
Proof.
  rewrite validate_array. cbn.
  destruct (Joi.checkItems _ _ _ _) as [l'|] eqn:Hitems; [| done].
  apply checkItems_None_Ok in Hitems as ->.
  destruct (Joi.run_tests _ _ _) eqn:Htests; [done |]. by intros [= <-].
Qed.

(** The first element the schema of [items()] rejects is the error of the
    array. *)
Lemma array_first_failure item pre x post e :
  Forall (fun y => ∃ y', accepted (Joi._validate item inner) y y') pre →
  defined x = true →
  Joi._validate item inner x = Joi.Fail e →
  Joi._validate (Joi.JArray c (Some item)) inner (VArr (pre ++ x :: post)) =
  Joi.Fail (Joi.Err "array.includesOne" (Some (Joi.Pos (length pre)))
              (Joi.flags_error c) (Some e)).
Proof.
  intros Hpre Hx Hfail. rewrite validate_array, c_settings. cbn.
  by rewrite (checkItems_first_failure _ _ 0 pre x post e).
Qed.

Lemma array_Ok_intro item l :
  Forall (fun y => ∃ y', accepted (Joi._validate item inner) y y') l →
  Joi.run_tests Joi.array_test (Joi.tests c) l = None →
  (∀ l', length l' = length l →
         Joi.run_tests Joi.array_test (Joi.tests c) l' =
         Joi.run_tests Joi.array_test (Joi.tests c) l) →
  ∃ l', Joi._validate (Joi.JArray c (Some item)) inner (VArr l) = Joi.Ok (VArr l').
Proof.
  intros Hall Htests Hlen. rewrite validate_array, c_settings. cbn.
  destruct (checkItems_Ok_intro (Joi.flags_error c) _ 0 l Hall) as [l' Hl'].
  rewrite Hl', Hlen, Htests; [by exists l' |]. by eapply checkItems_length.
Qed.
End ArraySchemaFacts.

Lemma array_max_100 (l : list value) :
  Joi.run_tests Joi.array_test [Joi.Max 100] l = None ↔ (length l ≤ 100)%nat.
Proof.
  simpl. destruct (Z.leb_spec (Z.of_nat (length l)) 100); split; (done || lia).
Qed.

(** ** Validation of a configuration *)

Section ConfigFacts.
Context `{Joi.Host}.
Implicit Types (o t e f u a : object) (l : list value).

Lemma globalKeys_NoDup : NoDup (map fst globalKeys).
Proof. by_computation. Qed.
Lemma endpointScheme_NoDup : NoDup (map fst endpointScheme).
Proof. by_computation. Qed.
Lemma functionScheme_NoDup : NoDup (map fst functionScheme).
Proof. by_computation. Qed.
Lemma usagePlanScheme_NoDup : NoDup (map fst usagePlanScheme).
Proof. by_computation. Qed.
Lemma authScheme_NoDup : NoDup (map fst authScheme).
Proof. by_computation. Qed.

(** [globalScheme] validates a configuration as its keys do under the
    option it sets. *)
Lemma Validate_object o :
  Validate (VObj o) =
  match Joi._validate (Joi.object .> Joi.keys globalKeys) inner (VObj o) with
  | Joi.Fail e => Throw (Joi.process [] e)
  | Joi.Ok v => Return v
  end.
Proof.
  unfold Validate, Joi.validate.
  change globalScheme with
    (Joi.JObject (Joi.set_settings inner Joi.any) (Some globalKeys)).
  change (Joi.object .> Joi.keys globalKeys) with
    (Joi.JObject Joi.any (Some globalKeys)).
  rewrite !validate_object. cbv zeta.
  cbn [Joi.concatSettings Joi.settings Joi.set_settings Joi.any
       Joi.flags_error Joi.allowUnknown inner].
  destruct (Joi.validate_children _ _ _ _); [| done].
  by destruct (Joi.unprocessed _ _).
Qed.

Lemma Validate_Return o out :
  Validate (VObj o) = Return out →
  ∃ t, out = VObj t ∧
       Joi._validate (Joi.object .> Joi.keys globalKeys) inner (VObj o) = Joi.Ok (VObj t).
Proof.
  rewrite Validate_object.
  destruct (Joi._validate _ _ _) as [v|] eqn:Hv; [| done].
  intros [= <-]. destruct (object_Ok Joi.any globalKeys eq_refl o v Hv) as (t & -> & _).
  by exists t.
Qed.

(** An element of [endpoints] that passes is taken for an object. *)
Lemma endpointItem_accepted x :
  defined x && passes endpointItem x = true →
  ∃ x', accepted (Joi._validate endpointItem inner) x x'.
Proof.
  intros [Hx (x' & Hx')%passes_Ok]%andb_true_iff. exists x'. split_and!; [done..|].
  destruct (validate_object_defined _ _ _ _ _ Hx' Hx) as [t ->]. done.
Qed.
End ConfigFacts.

Section ConfigOrder.
Context `{Joi.Host}.
Implicit Types (o t e x : object) (l : list value).

Lemma process_step path ty step reason :
  Joi.process path (Joi.Err ty (Some step) None (Some reason)) =
  Joi.process (path ++ [step]) reason.
Proof. reflexivity. Qed.

(** The first top-level key that fails is what [Validate] throws. *)
Lemma Validate_key_failure o k child err :
  own k globalKeys = Some child →
  fields_pass (before k globalKeys) o = true →
  Joi._validate child inner (get k o) = Joi.Fail err →
  Validate (VObj o) = Throw (Joi.process [Joi.Key k] err).
Proof.
  intros Hk Hpre Hfail. rewrite Validate_object.
  change (Joi.object .> Joi.keys globalKeys) with (Joi.JObject Joi.any (Some globalKeys)).
  by rewrite (object_first_failure Joi.any globalKeys eq_refl globalKeys_NoDup
                o k child err).
Qed.

Lemma endpoint_reached_inv o i e :
  endpoint_reached o i = Some e →
  fields_pass (before "endpoints" globalKeys) o = true ∧
  ∃ l, get "endpoints" o = VArr l ∧ l !! i = Some (VObj e) ∧
       Forall (fun y => ∃ y', accepted (Joi._validate endpointItem inner) y y') (take i l).
Proof.
  unfold endpoint_reached.
  destruct (fields_pass _ o); [| done].
  destruct (get "endpoints" o) as [| | | | |l|]; try done.
  destruct (forallb _ (take i l)) eqn:Hpre; [| done].
  destruct (l !! i) as [[| | | | | |e']|] eqn:Hi; try done.
  intros [= ->]. split; [done |]. exists l. split_and!; [done..|].
  apply Forall_forall. intros y Hy. apply endpointItem_accepted.
  rewrite forallb_forall in Hpre. apply Hpre. by apply list_elem_of_In.
Qed.

(** An error in the element of [endpoints] the validation has got to is
    what [Validate] throws. *)
Lemma Validate_endpoint_failure o i e err :
  endpoint_reached o i = Some e →
  Joi._validate endpointItem inner (VObj e) = Joi.Fail err →
  Validate (VObj o) = Throw (Joi.process [Joi.Key "endpoints"; Joi.Pos i] err).
Proof.
  intros (Hpre & l & Hl & Hi & Hitems)%endpoint_reached_inv Hfail.
  rewrite (Validate_key_failure o "endpoints" endpointsScheme
             (Joi.Err "array.includesOne" (Some (Joi.Pos i)) None (Some err)));
    [done | done | done |].
  rewrite Hl, <- (take_drop_middle l i (VObj e)) by done.
  pose (c := Joi.set_presence Joi.Required (Joi.add_test (Joi.Max 100) Joi.any)).
  change endpointsScheme with (Joi.JArray c (Some endpointItem)).
  rewrite (array_first_failure c eq_refl endpointItem _ _ _ err); [| done..].
  rewrite length_take_le; [done |]. apply lookup_lt_Some in Hi. lia.
Qed.

(** An error at the key [k'] of the object at key [k] of that element. *)
Lemma Validate_nested_failure k c children k' child o i x err :
  own k endpointScheme = Some (Joi.JObject c (Some children)) →
  Joi.settings c = None → Joi.flags_error c = None →
  NoDup (map fst children) →
  child_reached k o i = Some x →
  own k' children = Some child →
  fields_pass (before k' children) x = true →
  Joi._validate child inner (get k' x) = Joi.Fail err →
  Validate (VObj o) =
  Throw (Joi.process [Joi.Key "endpoints"; Joi.Pos i; Joi.Key k; Joi.Key k'] err).
Proof.
  intros Hk Hsettings Hflags Hnd Hreached Hk' Hpre Hfail.
  unfold child_reached in Hreached.
  destruct (endpoint_reached o i) as [e|] eqn:He; [| done].
  destruct (fields_pass (before k endpointScheme) e) eqn:Hbefore; [| done].
  destruct (get k e) as [| | | | | |x'] eqn:Hx; try done.
  injection Hreached as ->.
  pose proof (object_first_failure c children Hsettings Hnd x k' child err Hk' Hpre Hfail)
    as Hobject.
  rewrite Hflags in Hobject.
  rewrite (Validate_endpoint_failure o i e
             (Joi.Err "object.child" (Some (Joi.Key k)) None
                (Some (Joi.Err "object.child" (Some (Joi.Key k')) None (Some err)))));
    [done | done |].
  change endpointItem with (Joi.JObject Joi.any (Some endpointScheme)).
  rewrite (object_first_failure Joi.any endpointScheme eq_refl endpointScheme_NoDup
             e k _ (Joi.Err "object.child" (Some (Joi.Key k')) None (Some err))
             Hk Hbefore); [done |].
  by rewrite Hx.
Qed.
End ConfigOrder.

(** ** Required names *)

Section RequiredNames.
Context `{Joi.Host}.
Implicit Types (o f u : object) (c : Joi.common).

(** Every error of a string schema carries the schema's [flags.error]. *)
Lemma string_Fail c opts v err :
  Joi._validate (Joi.JString c) opts v = Joi.Fail err →
  ∃ ty, err = Joi.Err ty None (Joi.flags_error c) None.
Proof.
  destruct v as [| | | |s| |]; cbn [Joi._validate Joi.common_of].
  - destruct (Joi.presence c) as [[]|]; [done | | done]. intros [= <-]. by eexists.
  - intros [= <-]. by eexists.
  - intros [= <-]. by eexists.
  - intros [= <-]. by eexists.
  - destruct s; [intros [= <-]; by eexists |].
    destruct (Joi.run_tests _ _ _); [| done]. intros [= <-]. by eexists.
  - intros [= <-]. by eexists.
  - intros [= <-]. by eexists.
Qed.

(** What a required string schema accepts. *)
Lemma string_required_Ok c opts v v' :
  Joi.presence c = Some Joi.Required →
  Joi._validate (Joi.JString c) opts v = Joi.Ok v' →
  ∃ s, v = VStr s ∧ s ≠ "" ∧ Joi.run_tests Joi.string_test (Joi.tests c) s = None.
Proof.
  intros Hc. destruct v as [| | | |s| |]; cbn [Joi._validate Joi.common_of];
    rewrite ?Hc; try done.
  destruct s as [|a s]; [done |].
  destruct (Joi.run_tests _ _ _) eqn:Htests; [done |].
  intros _. by exists (String a s).
Qed.

Lemma string_tests_2_50 s :
  Joi.run_tests Joi.string_test [Joi.Min 2; Joi.Max 50] s = None ↔
  (2 ≤ String.length s ≤ 50)%nat.
Proof.
  simpl. destruct (Z.leb_spec 2 (Z.of_nat (String.length s)));
    [destruct (Z.leb_spec (Z.of_nat (String.length s)) 50) |];
    split; (done || lia).
Qed.

(** A required string schema with a message of its own rejects whatever is
    not a string its rules accept, and the error is that message. *)
Lemma required_name_violation c message path v :
  Joi.presence c = Some Joi.Required →
  Joi.flags_error c = Some message →
  (∀ s, v = VStr s → s ≠ "" →
        Joi.run_tests Joi.string_test (Joi.tests c) s ≠ None) →
  ∃ err, Joi._validate (Joi.JString c) inner v = Joi.Fail err ∧
         Joi.process path err = Joi.Error message.
Proof.
  intros Hpresence Hmessage Hviolation.
  destruct (Joi._validate (Joi.JString c) inner v) as [v'|err] eqn:Hv.
  - destruct (string_required_Ok _ _ _ _ Hpresence Hv) as (s & -> & Hs & Htests).
    by destruct (Hviolation s).
  - exists err. split; [done |].
    destruct (string_Fail _ _ _ _ Hv) as [ty ->]. simpl. by rewrite Hmessage.
Qed.

Lemma serviceName_violation o :
  fields_pass (before "serviceName" globalKeys) o = true →
  (∀ s, get "serviceName" o = VStr s →
        (String.length s < 2 ∨ 50 < String.length s)%nat) →
  Validate (VObj o) = Throw (Joi.Error serviceName_required).
Proof.
  intros Hpre Hviolation.
  pose (c := Joi.set_error serviceName_required
               (Joi.set_presence Joi.Required
                  (Joi.add_test (Joi.Max 50) (Joi.add_test (Joi.Min 2) Joi.any)))).
  destruct (required_name_violation c _ [Joi.Key "serviceName"]
              (get "serviceName" o) eq_refl eq_refl) as (err & Herr & Hprocess).
  { intros s Hs _ Htests%string_tests_2_50. specialize (Hviolation s Hs). lia. }
  rewrite (Validate_key_failure o "serviceName" (Joi.JString c) err);
    [by rewrite Hprocess | reflexivity | done | done].
Qed.

Lemma functionName_violation o i f :
  child_reached "function" o i = Some f →
  fields_pass (before "functionName" functionScheme) f = true →
  (∀ s, get "functionName" f = VStr s → s = "") →
  Validate (VObj o) = Throw (Joi.Error functionName_required).
Proof.
  intros Hreached Hpre Hviolation.
  pose (c := Joi.set_error functionName_required
               (Joi.set_presence Joi.Required Joi.any)).
  destruct (required_name_violation c _
              [Joi.Key "endpoints"; Joi.Pos i; Joi.Key "function"; Joi.Key "functionName"]
              (get "functionName" f) eq_refl eq_refl) as (err & Herr & Hprocess).
  { intros s Hs Hne _. by apply Hne, Hviolation. }
  rewrite (Validate_nested_failure "function"
             (Joi.set_presence Joi.Required Joi.any) functionScheme
             "functionName" (Joi.JString c) o i f err);
    [by rewrite Hprocess | reflexivity | done | done | apply functionScheme_NoDup
    | done | reflexivity | done | done].
Qed.

Lemma usagePlanName_violation o i u :
  child_reached "usagePlan" o i = Some u →
  fields_pass (before "usagePlanName" usagePlanScheme) u = true →
  (∀ s, get "usagePlanName" u = VStr s →
        (String.length s < 2 ∨ 50 < String.length s)%nat) →
  Validate (VObj o) = Throw (Joi.Error usagePlanName_required).
Proof.
  intros Hreached Hpre Hviolation.
  pose (c := Joi.set_error usagePlanName_required
               (Joi.set_presence Joi.Required
                  (Joi.add_test (Joi.Max 50) (Joi.add_test (Joi.Min 2) Joi.any)))).
  destruct (required_name_violation c _
              [Joi.Key "endpoints"; Joi.Pos i; Joi.Key "usagePlan"; Joi.Key "usagePlanName"]
              (get "usagePlanName" u) eq_refl eq_refl) as (err & Herr & Hprocess).
  { intros s Hs _ Htests%string_tests_2_50. specialize (Hviolation s Hs). lia. }
  rewrite (Validate_nested_failure "usagePlan" Joi.any usagePlanScheme
             "usagePlanName" (Joi.JString c) o i u err);
    [by rewrite Hprocess | reflexivity | done | done | apply usagePlanScheme_NoDup
    | done | reflexivity | done | done].
Qed.
End RequiredNames.

(** ** Accepted configurations *)

Section AcceptedFacts.
Context `{Joi.Host}.
Implicit Types (o t e x : object) (l : list value) (c : Joi.common).

Lemma fields_pass_ext children o o' :
  (∀ k, k ∈ map fst children → get k o' = get k o) →
  fields_pass children o' = fields_pass children o.
Proof.
  intros Hext. unfold fields_pass.
  induction children as [|[k child] children IH]; simpl; [done |].
  rewrite Hext by left. f_equal. apply IH. intros k' Hk'. apply Hext. by right.
Qed.

Lemma fields_pass_before k children o :
  fields_pass children o = true → fields_pass (before k children) o = true.
Proof.
  rewrite !fields_pass_Ok. intros Hall k' child Hin.
  apply Hall. by eapply before_elem.
Qed.

(** Assigning to [k] leaves the keys validated before [k] as they were. *)
Lemma fields_pass_before_assign k v children o :
  fields_pass (before k children) (assign k v o) =
  fields_pass (before k children) o.
Proof.
  apply fields_pass_ext. intros k' Hk'. apply get_assign_ne.
  intros ->. by apply (before_fresh k children).
Qed.

(** Assigning to a key the schema does not name changes nothing for it. *)
Lemma fields_pass_assign_unknown k v children o :
  k ∉ map fst children →
  fields_pass children (assign k v o) = fields_pass children o.
Proof.
  intros Hk. apply fields_pass_ext. intros k' Hk'. apply get_assign_ne.
  by intros ->.
Qed.

Lemma object_Ok_nested c children o t k c' children' x :
  Joi.settings c = None → NoDup (map fst children) →
  Joi._validate (Joi.JObject c (Some children)) inner (VObj o) = Joi.Ok (VObj t) →
  own k children = Some (Joi.JObject c' children') →
  get k o = VObj x →
  ∃ x', get k t = VObj x' ∧
        Joi._validate (Joi.JObject c' children') inner (VObj x) = Joi.Ok (VObj x').
Proof.
  intros Hc Hnd Hok Hk Hx.
  destruct (object_Ok_child c children Hc Hnd o t k _ Hok Hk) as (v & Hv & Hget).
  rewrite Hx in Hv. destruct (validate_object_defined _ _ _ _ _ Hv eq_refl) as [x' ->].
  by exists x'.
Qed.

(** A key left out is in the result with the default of its schema. *)
Lemma object_Ok_default c children o t k child :
  Joi.settings c = None → NoDup (map fst children) →
  Joi._validate (Joi.JObject c (Some children)) inner (VObj o) = Joi.Ok (VObj t) →
  own k children = Some child →
  get k o = VUndefined →
  get k t = Joi.default_value (Joi.common_of child).
Proof.
  intros Hc Hnd Hok Hk Hmissing.
  destruct (object_Ok_child c children Hc Hnd o t k _ Hok Hk) as (v & Hv & Hget).
  rewrite Hmissing, validate_undefined in Hv. rewrite Hmissing in Hget.
  destruct (Joi.presence _) as [[]|]; [| done |]; injection Hv as <-;
    rewrite Hget; by destruct (Joi.default_value _).
Qed.

Lemma accepted_endpoint e (v : value) :
  accepted (Joi._validate endpointItem inner) (VObj e) v →
  ∃ e', v = VObj e' ∧ Joi._validate endpointItem inner (VObj e) = Joi.Ok (VObj e').
Proof.
  intros (_ & Hv & _).
  destruct (validate_object_defined _ _ _ _ _ Hv eq_refl) as [e' ->]. by exists e'.
Qed.

(** An accepted configuration: the validated [endpoints]. *)
Lemma Validate_Return_endpoints o out l :
  Validate (VObj o) = Return out →
  get "endpoints" o = VArr l →
  ∃ t l', out = VObj t ∧
          Joi._validate (Joi.object .> Joi.keys globalKeys) inner (VObj o) = Joi.Ok (VObj t) ∧
          get "endpoints" t = VArr l' ∧
          Forall2 (accepted (Joi._validate endpointItem inner)) l l' ∧
          (length l' ≤ 100)%nat.
Proof.
  intros (t & -> & Ht)%Validate_Return Hl. exists t.
  destruct (object_Ok_child Joi.any globalKeys eq_refl globalKeys_NoDup
              o t "endpoints" endpointsScheme Ht eq_refl) as (v & Hv & Hget).
  rewrite Hl in Hv.
  pose (c := Joi.set_presence Joi.Required (Joi.add_test (Joi.Max 100) Joi.any)).
  destruct (array_Ok c eq_refl endpointItem l v Hv) as (l' & -> & Hitems & Htests).
  exists l'. split_and!; [done | done | done | done |]. by apply array_max_100.
Qed.

(** An accepted configuration: the validated element [i] of [endpoints]. *)
Lemma Validate_Return_endpoint o out l i e :
  Validate (VObj o) = Return out →
  get "endpoints" o = VArr l →
  l !! i = Some (VObj e) →
  ∃ t l' e', out = VObj t ∧ get "endpoints" t = VArr l' ∧
             l' !! i = Some (VObj e') ∧
             Joi._validate endpointItem inner (VObj e) = Joi.Ok (VObj e').
Proof.
  intros Hout Hl Hi.
  destruct (Validate_Return_endpoints o out l Hout Hl)
    as (t & l' & -> & _ & Hget & Hitems & _).
  destruct (Forall2_lookup_l _ _ _ _ _ Hitems Hi) as (x' & Hi' & Hx').
  destruct (accepted_endpoint _ _ Hx') as (e' & -> & He').
  by exists t, l', e'.
Qed.
End AcceptedFacts.

(** ** Changing an accepted configuration *)

Section ReplaceFacts.
Context `{Joi.Host}.
Implicit Types (o t e u : object) (l : list value).

Lemma own_elem_NoDup {A : Type} k (children : list (string * A)) child :
  NoDup (map fst children) → (k, child) ∈ children → own k children = Some child.
Proof.
  induction children as [|[k0 c0] children IH]; simpl.
  - by intros _ ?%elem_of_nil.
  - intros [Hk0 Hnd]%NoDup_cons [[= -> ->]|Hin]%elem_of_cons.
    + by rewrite String.eqb_refl.
    + destruct (String.eqb_spec k k0) as [->|]; [| by apply IH].
      destruct Hk0. by apply (list_elem_of_fmap_2 fst _ (k0, child)).
Qed.

(** Assigning to a key a value its schema accepts keeps the keys passing. *)
Lemma fields_pass_assign k v children o child :
  NoDup (map fst children) →
  own k children = Some child →
  fields_pass children o = true →
  passes child v = true →
  fields_pass children (assign k v o) = true.
Proof.
  intros Hnd Hk Hall Hv. rewrite fields_pass_Ok in *. intros k' child' Hin.
  rewrite get_assign. case_decide as Heq; [| by apply Hall].
  subst k'. apply (own_elem_NoDup _ _ _ Hnd) in Hin.
  assert (child' = child) as -> by congruence. by apply passes_Ok.
Qed.

Lemma Validate_Return_intro o :
  fields_pass globalKeys o = true → ∃ t, Validate (VObj o) = Return (VObj t).
Proof.
  intros Hall. rewrite Validate_object.
  destruct (object_Ok_intro Joi.any globalKeys eq_refl globalKeys_NoDup o Hall)
    as [t Ht].
  change (Joi.object .> Joi.keys globalKeys) with (Joi.JObject Joi.any (Some globalKeys)).
  rewrite Ht. by exists t.
Qed.

Lemma Validate_Return_fields_pass o out :
  Validate (VObj o) = Return out → fields_pass globalKeys o = true.
Proof.
  intros (t & -> & Ht)%Validate_Return.
  by eapply (object_Ok_fields_pass Joi.any globalKeys eq_refl globalKeys_NoDup).
Qed.

Lemma accepted_passes (x x' : value) :
  accepted (Joi._validate endpointItem inner) x x' →
  defined x && passes endpointItem x = true.
Proof.
  intros (Hx & Hv & _). rewrite Hx. apply passes_Ok. by exists x'.
Qed.

(** In an accepted configuration, the validation gets to any element put
    in place of an element of [endpoints]. *)
Lemma endpoint_reached_replace o out l i e e' :
  Validate (VObj o) = Return out →
  get "endpoints" o = VArr l →
  l !! i = Some (VObj e) →
  endpoint_reached (replace_endpoint o l i e') i = Some e'.
Proof.
  intros Hout Hl Hi. unfold endpoint_reached, replace_endpoint.
  rewrite fields_pass_before_assign, fields_pass_before
    by by eapply Validate_Return_fields_pass.
  rewrite get_assign_eq, take_insert_ge by done.
  destruct (Validate_Return_endpoints o out l Hout Hl)
    as (t & l' & _ & _ & _ & Hitems & _).
  assert (forallb (fun x => defined x && passes endpointItem x) (take i l) = true)
    as ->.
  { apply forallb_forall. intros x Hx%list_elem_of_In%elem_of_take.
    destruct Hx as (j & Hj & _).
    destruct (Forall2_lookup_l _ _ _ _ _ Hitems Hj) as (x' & _ & Hx').
    by eapply accepted_passes. }
  rewrite list_lookup_insert_eq; [done |]. by eapply lookup_lt_Some.
Qed.

(** An accepted configuration stays accepted when an element of
    [endpoints] is replaced by an object whose keys pass. *)
Lemma Validate_Return_replace o out l i e e' :
  Validate (VObj o) = Return out →
  get "endpoints" o = VArr l →
  l !! i = Some (VObj e) →
  fields_pass endpointScheme e' = true →
  ∃ t, Validate (VObj (replace_endpoint o l i e')) = Return (VObj t).
Proof.
  intros Hout Hl Hi He'. apply Validate_Return_intro. unfold replace_endpoint.
  apply (fields_pass_assign _ _ _ _ endpointsScheme);
    [apply globalKeys_NoDup | reflexivity | by eapply Validate_Return_fields_pass |].
  destruct (Validate_Return_endpoints o out l Hout Hl)
    as (t & l' & _ & _ & _ & Hitems & Hmax).
  pose (c := Joi.set_presence Joi.Required (Joi.add_test (Joi.Max 100) Joi.any)).
  destruct (array_Ok_intro c eq_refl endpointItem (<[i := VObj e']> l)) as [l'' Hl''].
  - apply Forall_insert.
    + eapply Forall2_Forall_l; [done |]. apply Forall_true. intros y' y Hy. by exists y'.
    + destruct (object_Ok_intro Joi.any endpointScheme eq_refl endpointScheme_NoDup
                  e' He') as [t' Ht'].
      by exists (VObj t').
  - apply array_max_100. rewrite length_insert.
    apply Forall2_length in Hitems. lia.
  - intros k Hk. simpl. by rewrite Hk.
  - apply passes_Ok. by exists (VArr l'').
Qed.
End ReplaceFacts.

(** ** Configurations of the specified shape *)

Section ShapeFacts.
Context `{Joi.Host}.
Implicit Types (c : Joi.common) (o : object) (l : list value).

Lemma passes_undefined s :
  passes s VUndefined =
  match Joi.presence (Joi.common_of s) with
  | Some Joi.Required => false
  | _ => true
  end.
Proof.
  unfold passes. rewrite validate_undefined.
  by destruct (Joi.presence _) as [[]|].
Qed.

Lemma passes_string c s :
  passes (Joi.JString c) (VStr s) =
  negb (String.eqb s "") &&
  match Joi.run_tests Joi.string_test (Joi.tests c) s with
  | None => true
  | Some _ => false
  end.
Proof.
  unfold passes. cbn [Joi._validate Joi.common_of].
  destruct s; [done |]. cbn [String.eqb negb andb].
  by destruct (Joi.run_tests _ _ _).
Qed.

Lemma passes_integer c z :
  passes (Joi.JNumber c) (VNum (Int z)) =
  negb (Joi.unsafe (Int z)) &&
  match Joi.run_tests Joi.number_test (Joi.tests c) (Int z) with
  | None => true
  | Some _ => false
  end.
Proof.
  unfold passes. cbn [Joi._validate Joi.common_of Joi.number_base Joi.isNaN].
  destruct (Joi.unsafe (Int z)); [done |]. cbn [negb andb].
  by destruct (Joi.run_tests _ _ _).
Qed.

Lemma passes_boolean c b : passes (Joi.JBoolean c) (VBool b) = true.
Proof. done. Qed.

Lemma passes_object c children o :
  Joi.settings c = None → NoDup (map fst children) →
  passes (Joi.JObject c (Some children)) (VObj o) = fields_pass children o.
Proof.
  intros Hc Hnd. destruct (fields_pass children o) eqn:Hall.
  - apply passes_Ok. destruct (object_Ok_intro c children Hc Hnd o Hall) as [t Ht].
    by exists (VObj t).
  - apply not_true_is_false. intros (v & Hv)%passes_Ok.
    rewrite (object_Ok_fields_pass c children Hc Hnd o v Hv) in Hall. done.
Qed.

Lemma checkItems_plain override i l :
  forallb defined l = true → Joi.checkItems override None i l = Joi.Ok l.
Proof.
  revert i. induction l as [|x l IH]; intros i; [done |].
  intros [Hx Hl]%andb_true_iff. rewrite checkItems_cons. cbv zeta.
  by rewrite Hx, IH.
Qed.

Lemma passes_array_plain c l :
  forallb defined l = true →
  Joi.run_tests Joi.array_test (Joi.tests c) l = None →
  passes (Joi.JArray c None) (VArr l) = true.
Proof.
  intros Hl Htests. apply passes_Ok. exists (VArr l).
  rewrite validate_array. cbv zeta. by rewrite checkItems_plain, Htests.
Qed.
End ShapeFacts.

Section ShapeAccepted.
Context `{Joi.Host}.
Implicit Types (o f u a e : object).

(** A key of the specified shape passes its schema: by cases on the value,
    with the comparisons of the shape and of the rules decided alike. *)
Ltac key_passes :=
  match goal with
  | Hshape : _ ?v = true |- passes _ ?v = true =>
      revert Hshape; generalize v;
      intros [| |b|[z| | |]|s| |] Hshape; try discriminate Hshape;
      cbn in Hshape |- *;
      rewrite ?passes_undefined, ?passes_string, ?passes_integer, ?passes_boolean;
      try reflexivity;
      unfold Joi.unsafe; cbn in Hshape |- *; unfold Joi.MAX_SAFE_INTEGER in *;
      repeat match goal with
             | |- context [?x <=? ?y] => destruct (Z.leb_spec x y)
             | Hb : context [?x <=? ?y] |- _ => destruct (Z.leb_spec x y)
             | |- context [String.eqb ?x ?y] =>
                 destruct (String.eqb_spec x y); try subst; cbn in Hshape |- *
             end;
      cbn in Hshape |- *; try (done || lia)
  end.

Lemma FunctionBinding_passes f :
  FunctionBinding f = true → fields_pass functionScheme f = true.
Proof.
  unfold FunctionBinding. rewrite !andb_true_iff. intros [[H1 H2] H3].
  unfold fields_pass. cbn [forallb functionScheme fst snd].
  rewrite !andb_true_iff. split_and!; [key_passes.. | done].
Qed.

Lemma UsagePlan_passes u :
  UsagePlan u = true → fields_pass usagePlanScheme u = true.
Proof.
  unfold UsagePlan. rewrite !andb_true_iff. intros [[[[H1 H2] H3] H4] H5].
  unfold fields_pass. cbn [forallb usagePlanScheme fst snd].
  rewrite !andb_true_iff. split_and!; [key_passes.. | done].
Qed.

Lemma any_string_defined (v : value) : any_string v = true → defined v = true.
Proof. by destruct v. Qed.

Lemma AuthConfig_passes a :
  AuthConfig a = true → fields_pass authScheme a = true.
Proof.
  unfold AuthConfig. rewrite !andb_true_iff. intros [[H1 H2] H3].
  unfold fields_pass. cbn [forallb authScheme fst snd].
  rewrite !andb_true_iff. split_and!; [key_passes | key_passes | | done].
  destruct (get "secretIds" a) as [| | | | |l|]; try done.
  apply andb_true_iff in H3 as [Hmax Hall].
  apply passes_array_plain.
  - apply forallb_forall. intros x Hx. apply any_string_defined.
    by apply (proj1 (forallb_forall _ _) Hall).
  - apply array_max_100. by apply Nat.leb_le.
Qed.

(** A value of the shape of an object passes the schema of that object. *)
Lemma is_object_passes c children shape (v : value) :
  Joi.settings c = None → NoDup (map fst children) →
  (∀ o, shape o = true → fields_pass children o = true) →
  is_object shape v = true →
  passes (Joi.JObject c (Some children)) v = true.
Proof.
  intros Hc Hnd Hshape Hv. destruct v as [| | | | | |o]; try done.
  rewrite passes_object by done. by apply Hshape.
Qed.

Lemma optionally_object_passes c children shape (v : value) :
  Joi.settings c = None → Joi.presence c = None → NoDup (map fst children) →
  (∀ o, shape o = true → fields_pass children o = true) →
  optionally (is_object shape) v = true →
  passes (Joi.JObject c (Some children)) v = true.
Proof.
  intros Hc Hp Hnd Hshape Hv. destruct v as [| | | | | |o]; try done.
  - rewrite passes_undefined. cbn. by rewrite Hp.
  - rewrite passes_object by done. by apply Hshape.
Qed.

Lemma Endpoint_passes e :
  Endpoint e = true → fields_pass endpointScheme e = true.
Proof.
  unfold Endpoint. rewrite !andb_true_iff.
  intros [[[[[[[H1 H2] H3] H4] H5] H6] H7] H8].
  unfold fields_pass. cbn [forallb endpointScheme fst snd].
  rewrite !andb_true_iff.
  split_and!; [key_passes | key_passes | key_passes | key_passes | key_passes
              | | | | done].
  - apply (is_object_passes _ functionScheme FunctionBinding);
      [done | apply functionScheme_NoDup | apply FunctionBinding_passes | done].
  - apply (optionally_object_passes _ usagePlanScheme UsagePlan);
      [done | done | apply usagePlanScheme_NoDup | apply UsagePlan_passes | done].
  - apply (optionally_object_passes _ authScheme AuthConfig);
      [done | done | apply authScheme_NoDup | apply AuthConfig_passes | done].
Qed.

Lemma endpoints_pass (v : value) :
  is_sequence 100 (is_object Endpoint) v = true →
  passes endpointsScheme v = true.
Proof.
  destruct v as [| | | | |l|]; try done.
  intros [Hmax Hall]%andb_true_iff.
  pose (c := Joi.set_presence Joi.Required (Joi.add_test (Joi.Max 100) Joi.any)).
  destruct (array_Ok_intro c eq_refl endpointItem l) as [l' Hl'].
  - apply Forall_forall. intros x Hx%list_elem_of_In.
    apply endpointItem_accepted.
    assert (is_object Endpoint x = true) as Hobject
      by by apply (proj1 (forallb_forall _ _) Hall).
    apply andb_true_iff. split; [by destruct x |].
    by apply (is_object_passes Joi.any endpointScheme Endpoint x eq_refl
                endpointScheme_NoDup Endpoint_passes).
  - apply array_max_100. by apply Nat.leb_le.
  - intros k Hk. simpl. by rewrite Hk.
  - apply passes_Ok. by exists (VArr l').
Qed.

(** A configuration of the specified shape is accepted. *)
Lemma ServiceConfig_accepted o :
  ServiceConfig o = true → ∃ t, Validate (VObj o) = Return (VObj t).
Proof.
  unfold ServiceConfig. rewrite !andb_true_iff.
  intros [[[[[[H1 H2] H3] H4] H5] H6] H7].
  apply Validate_Return_intro.
  unfold fields_pass. cbn [forallb globalKeys fst snd].
  rewrite !andb_true_iff.
  split_and!; [key_passes | key_passes | key_passes | key_passes | key_passes
              | key_passes | by apply endpoints_pass | done].
Qed.
End ShapeAccepted.

(** * The properties of the specification *)

(** ** The dispatcher *)

Section DispatcherSpec.
Import ApiGwRequest.



(** C2, as amended. The client is called with the payload
    [{ Action, ...data }]: every property of [data] is in it unchanged, and
    [Action] is the dispatcher's action name when [data] has no property
    named [Action]; a property [Action] of [data] replaces the action
    name. That this payload is what the client is called with shows in
    the outcome of [request], which is the outcome of the client's call
    with it: [request] looks at no other call of the client, rejects with
    what that call rejects with, and resolves with its response when the
    [code] of the response is 0. *)
Theorem request_data_merges (Action : string) (data : object) :
  well_formed data →
  ∃ payload : object,
    (∀ k, own k payload =
          match own k data with
          | Some v => Some v
          | None => if decide (k = "Action") then Some (VStr Action) else None
          end) ∧
    ∀ (apiRequest : CapiInstance) options isV3 needCheck,
      let sent := apiRequest payload (request_options options) (default false isV3) in
      request apiRequest Action data options isV3 needCheck =
        request (fun _ _ _ => sent) Action data options isV3 needCheck ∧
      (∀ err, sent = Rejected err →
         request apiRequest Action data options isV3 needCheck = Rejected err) ∧
      (∀ res, sent = Resolved (VObj res) → get "code" res = VNum (Int 0) →
         request apiRequest Action data options isV3 needCheck = Resolved (VObj res)).
Proof.
  intros Hwf. exists (request_data Action data). split; [| intros; apply request_sent].
  intros k. unfold request_data.
  rewrite own_spread by done. destruct (own k data); [done |].
  simpl. destruct (String.eqb_spec k "Action"); by case_decide.
Qed.


(** C5. After construction, [apis] has exactly the 25 action names of the
    allow-list as keys, each once, and the entry of a name calls [request]
    with that name and with [needCheck] true exactly when the name is one
    of UnBindSecretIds, UnBindEnvironment, DeleteUsagePlan, DeleteApiKey. *)
Theorem constructor_exposes_actions (Capi : object → CapiInstance) (options : object) :
  let this := constructor Capi options in
  JS.keys (apis this) =
    [ "CreateService"; "DeleteService"; "DescribeService"; "ReleaseService";
      "UnReleaseService"; "CreateApi"; "DescribeApi"; "DeleteApi"; "ModifyApi";
      "DescribeApisStatus"; "CreateUsagePlan"; "DescribeApiUsagePlan";
      "DescribeUsagePlanSecretIds"; "DescribeUsagePlan"; "DeleteUsagePlan";
      "ModifyUsagePlan"; "CreateApiKey"; "DeleteApiKey"; "DisableApiKey";
      "EnableApiKey"; "DescribeApiKeysStatus"; "BindSecretIds";
      "UnBindSecretIds"; "BindEnvironment"; "UnBindEnvironment" ] ∧
  length (apis this) = 25%nat ∧
  well_formed (apis this) ∧
  Forall
    (fun entry =>
       ∀ data options isV3,
         entry.2 data options isV3 =
         request (apiRequest this) entry.1 data options isV3
           (Some (bool_decide
              (entry.1 ∈ ["UnBindSecretIds"; "UnBindEnvironment";
                          "DeleteUsagePlan"; "DeleteApiKey"]))))
    (apis this).
Proof.
  intros this. unfold this, constructor. cbn [apis ApiGwRequest.apiRequest].
  rewrite apiFactory_entries. split_and!.
  - reflexivity.
  - reflexivity.
  - apply actionList_NoDup.
  - apply Forall_map, Forall_forall. intros item _ data opts isV3.
    cbn [fst snd]. unfold entry. by rewrite indexOf_spec.
Qed.
End DispatcherSpec.

(** ** The validator *)

Section AcceptedSpec.
Context `{Joi.Host}.

(** C7. A configuration whose [endpoints] array has more than 100
    elements is rejected: [Validate] throws (an error of joi or one given
    to [error()], whichever comes first); and so is one in which
    [auth.secretIds] of an element of [endpoints] has more than 100
    elements. *)
Theorem Validate_rejects_long_arrays (o : object) (l : list value) :
  get "endpoints" o = VArr l →
  (100 < length l)%nat ∨
  (∃ (i : nat) (e a : object) (ids : list value),
     l !! i = Some (VObj e) ∧ get "auth" e = VObj a ∧
     get "secretIds" a = VArr ids ∧ (100 < length ids)%nat) →
  ∃ err, Validate (VObj o) = Throw err.
Proof.
  intros Hl Hlong.
  destruct (Validate (VObj o)) as [out|err] eqn:Hout; [exfalso | by exists err].
  destruct Hlong as [Hlong|(i & e & a & ids & Hi & Ha & Hids & Hlong)].
  - destruct (Validate_Return_endpoints o out l Hout Hl)
      as (t & l' & _ & _ & _ & Hitems & Hmax).
    apply Forall2_length in Hitems. lia.
  - destruct (Validate_Return_endpoint o out l i e Hout Hl Hi)
      as (t & l' & e' & _ & _ & _ & He).
    destruct (object_Ok_nested Joi.any endpointScheme e e' "auth"
                Joi.any (Some authScheme) a eq_refl endpointScheme_NoDup He
                eq_refl Ha) as (a' & _ & Hauth).
    destruct (object_Ok_child Joi.any authScheme eq_refl authScheme_NoDup
                a a' "secretIds" (Joi.array .> Joi.max 100) Hauth eq_refl)
      as (v & Hv & _).
    rewrite Hids in Hv.
    destruct (array_plain_Ok (Joi.add_test (Joi.Max 100) Joi.any) ids v Hv)
      as [_ Hmax%array_max_100].
    lia.
Qed.

(** C6. [Validate] returns for a configuration of the specified shape;
    and the object it returns for a configuration, of that shape or
    otherwise accepted, has, for every key with a default that the
    configuration leaves out, that default: region, protocol and
    environment; enableCORS of each element of [endpoints];
    isIntegratedResponse and functionQualifier of its function;
    maxRequestNum and maxRequestNumPreSec of its usage plan and
    serviceTimeout of its auth, when it has them. *)
Theorem Validate_populates_defaults (o : object) :
  (ServiceConfig o = true → ∃ out, Validate (VObj o) = Return out) ∧
  ∀ out, Validate (VObj o) = Return out →
  ∃ t, out = VObj t ∧
    populated "region" (VStr "ap-guangzhou") o t ∧
    populated "protocol" (VStr "http") o t ∧
    populated "environment" (VStr "release") o t ∧
    ∀ l, get "endpoints" o = VArr l →
      ∃ l', get "endpoints" t = VArr l' ∧ length l' = length l ∧
        ∀ i e, l !! i = Some (VObj e) →
          ∃ e', l' !! i = Some (VObj e') ∧
            populated "enableCORS" (VBool false) e e' ∧
            (∀ f, get "function" e = VObj f →
               ∃ f', get "function" e' = VObj f' ∧
                 populated "isIntegratedResponse" (VBool false) f f' ∧
                 populated "functionQualifier" (VStr "$LATEST") f f') ∧
            (∀ u, get "usagePlan" e = VObj u →
               ∃ u', get "usagePlan" e' = VObj u' ∧
                 populated "maxRequestNum" (VNum (Int (-1))) u u' ∧
                 populated "maxRequestNumPreSec" (VNum (Int 1000)) u u') ∧
            (∀ a, get "auth" e = VObj a →
               ∃ a', get "auth" e' = VObj a' ∧
                 populated "serviceTimeout" (VNum (Int 15)) a a').
Proof.
  split.
  { intros Hshape. destruct (ServiceConfig_accepted o Hshape) as [t Ht].
    by exists (VObj t). }
  intros out Hout. destruct (Validate_Return o out Hout) as (t & -> & Ht).
  pose proof (object_Ok_default Joi.any globalKeys o t) as Htop.
  exists t. split_and!; [done | ..].
  - intros Hmissing. by rewrite (Htop "region" _ eq_refl globalKeys_NoDup Ht eq_refl).
  - intros Hmissing. by rewrite (Htop "protocol" _ eq_refl globalKeys_NoDup Ht eq_refl).
  - intros Hmissing. by rewrite (Htop "environment" _ eq_refl globalKeys_NoDup Ht eq_refl).
  - intros l Hl.
    destruct (Validate_Return_endpoints o (VObj t) l Hout Hl)
      as (t' & l' & [= <-] & _ & Hget & Hitems & _).
    exists l'. split_and!; [done | symmetry; by eapply Forall2_length |].
    intros i e Hi.
    destruct (Forall2_lookup_l _ _ _ _ _ Hitems Hi) as (x' & Hi' & Hx').
    destruct (accepted_endpoint _ _ Hx') as (e' & -> & He').
    exists e'. split; [done |].
    change endpointItem with (Joi.JObject Joi.any (Some endpointScheme)) in He'.
    split_and!.
    + intros Hmissing.
      by rewrite (object_Ok_default Joi.any endpointScheme e e' "enableCORS" _
                    eq_refl endpointScheme_NoDup He' eq_refl).
    + intros f Hf.
      destruct (object_Ok_nested Joi.any endpointScheme e e' "function"
                  (Joi.set_presence Joi.Required Joi.any) (Some functionScheme) f
                  eq_refl endpointScheme_NoDup He' eq_refl Hf) as (f' & Hf' & Hfunction).
      pose proof (object_Ok_default (Joi.set_presence Joi.Required Joi.any)
                    functionScheme f f') as Hdefault.
      exists f'. split_and!; [done | ..]; intros Hmissing.
      * by rewrite (Hdefault "isIntegratedResponse" _ eq_refl functionScheme_NoDup
                      Hfunction eq_refl).
      * by rewrite (Hdefault "functionQualifier" _ eq_refl functionScheme_NoDup
                      Hfunction eq_refl).
    + intros u Hu.
      destruct (object_Ok_nested Joi.any endpointScheme e e' "usagePlan"
                  Joi.any (Some usagePlanScheme) u
                  eq_refl endpointScheme_NoDup He' eq_refl Hu) as (u' & Hu' & Hplan).
      pose proof (object_Ok_default Joi.any usagePlanScheme u u') as Hdefault.
      exists u'. split_and!; [done | ..]; intros Hmissing.
      * by rewrite (Hdefault "maxRequestNum" _ eq_refl usagePlanScheme_NoDup
                      Hplan eq_refl).
      * by rewrite (Hdefault "maxRequestNumPreSec" _ eq_refl usagePlanScheme_NoDup
                      Hplan eq_refl).
    + intros a Ha.
      destruct (object_Ok_nested Joi.any endpointScheme e e' "auth"
                  Joi.any (Some authScheme) a
                  eq_refl endpointScheme_NoDup He' eq_refl Ha) as (a' & Ha' & Hauth).
      exists a'. split; [done |]. intros Hmissing.
      by rewrite (object_Ok_default Joi.any authScheme a a' "serviceTimeout" _
                    eq_refl authScheme_NoDup Hauth eq_refl).
Qed.
End AcceptedSpec.

Section ReplaceSpec.
Context `{Joi.Host}.

(** C9. In an accepted configuration, a usage plan that leaves
    [maxRequestNum] out has [maxRequestNum] equal to -1 in the object
    [Validate] returns; the same configuration with [maxRequestNum] of that
    usage plan set to -1 is rejected, by the rule [min(1)] of the key. *)
Theorem maxRequestNum_default_below_min (o : object) (out : value)
    (l : list value) (i : nat) (e u : object) :
  Validate (VObj o) = Return out →
  get "endpoints" o = VArr l →
  l !! i = Some (VObj e) →
  get "usagePlan" e = VObj u →
  get "maxRequestNum" u = VUndefined →
  (∃ t l' e' u',
     out = VObj t ∧ get "endpoints" t = VArr l' ∧ l' !! i = Some (VObj e') ∧
     get "usagePlan" e' = VObj u' ∧ get "maxRequestNum" u' = VNum (Int (-1))) ∧
  Validate
    (VObj (replace_endpoint o l i
       (assign "usagePlan" (VObj (assign "maxRequestNum" (VNum (Int (-1))) u)) e))) =
  Throw (Joi.ValidationError "number.min"
           [Joi.Key "endpoints"; Joi.Pos i; Joi.Key "usagePlan";
            Joi.Key "maxRequestNum"]).
Proof.
  intros Hout Hl Hi Hu Hmissing.
  destruct (Validate_Return_endpoint o out l i e Hout Hl Hi)
    as (t & l' & e' & -> & Hget & Hi' & He).
  change endpointItem with (Joi.JObject Joi.any (Some endpointScheme)) in He.
  destruct (object_Ok_nested Joi.any endpointScheme e e' "usagePlan"
              Joi.any (Some usagePlanScheme) u
              eq_refl endpointScheme_NoDup He eq_refl Hu) as (u' & Hu' & Hplan).
  split.
  - exists t, l', e', u'. split_and!; [done..|].
    by rewrite (object_Ok_default Joi.any usagePlanScheme u u' "maxRequestNum" _
                  eq_refl usagePlanScheme_NoDup Hplan eq_refl).
  - pose (child := Joi.number .> Joi.integer .> Joi.min 1 .> Joi.max 99999999
                     .> Joi.optional .> Joi.default (VNum (Int (-1)))).
    rewrite (Validate_nested_failure "usagePlan" Joi.any usagePlanScheme
               "maxRequestNum" child _ i (assign "maxRequestNum" (VNum (Int (-1))) u)
               (Joi.Err "number.min" None None None));
      [done | reflexivity | done | done | apply usagePlanScheme_NoDup
      | | reflexivity | | ].
    + unfold child_reached.
      rewrite (endpoint_reached_replace o (VObj t) l i e) by done.
      rewrite fields_pass_before_assign, fields_pass_before, get_assign_eq; [done |].
      by eapply (object_Ok_fields_pass Joi.any endpointScheme eq_refl
                   endpointScheme_NoDup).
    + rewrite fields_pass_before_assign. apply fields_pass_before.
      by eapply (object_Ok_fields_pass Joi.any usagePlanScheme eq_refl
                   usagePlanScheme_NoDup).
    + by rewrite get_assign_eq.
Qed.

(** C3, as amended. [allowUnknown], set on [globalScheme], holds for its
    sub-keys too: in an accepted configuration, the keys the schema does not
    name are in the returned object as they were, at the top level and in
    the elements of [endpoints] alike; and adding such a key, at either
    level, leaves the configuration accepted. *)
Theorem unknown_keys_allowed (o : object) (out : value) :
  Validate (VObj o) = Return out →
  ∃ t, out = VObj t ∧
    (∀ k, k ∉ JS.keys globalKeys → own k t = own k o) ∧
    (∀ k v, k ∉ JS.keys globalKeys →
            ∃ t', Validate (VObj (assign k v o)) = Return (VObj t')) ∧
    (∀ l i e, get "endpoints" o = VArr l → l !! i = Some (VObj e) →
       ∃ l' e', get "endpoints" t = VArr l' ∧ l' !! i = Some (VObj e') ∧
         (∀ k, k ∉ JS.keys endpointScheme → own k e' = own k e) ∧
         (∀ k v, k ∉ JS.keys endpointScheme →
                 ∃ t', Validate (VObj (replace_endpoint o l i (assign k v e))) =
                       Return (VObj t'))).
Proof.
  intros Hout. destruct (Validate_Return o out Hout) as (t & -> & Ht).
  exists t. split_and!; [done | ..].
  - intros k Hk.
    by eapply (object_Ok_frame Joi.any globalKeys eq_refl).
  - intros k v Hk. apply Validate_Return_intro.
    rewrite fields_pass_assign_unknown by done.
    by eapply Validate_Return_fields_pass.
  - intros l i e Hl Hi.
    destruct (Validate_Return_endpoint o (VObj t) l i e Hout Hl Hi)
      as (t' & l' & e' & [= <-] & Hget & Hi' & He).
    change endpointItem with (Joi.JObject Joi.any (Some endpointScheme)) in He.
    exists l', e'. split_and!; [done | done | ..].
    + intros k Hk.
      by eapply (object_Ok_frame Joi.any endpointScheme eq_refl).
    + intros k v Hk. eapply Validate_Return_replace; [done..|].
      rewrite fields_pass_assign_unknown by done.
      by eapply (object_Ok_fields_pass Joi.any endpointScheme eq_refl
                   endpointScheme_NoDup).
Qed.
End ReplaceSpec.

Section RequiredNameSpec.
Context `{Joi.Host}.

(** C8, as amended. [Validate] stops at the first error, in the order of
    the schema's keys. For a configuration without [serviceName] whose keys
    validated before it (region, serviceId, protocol) pass, it throws the
    [Error] of message ["serviceName" is required]. For a configuration in
    which the validation gets to the [function] object of an element of
    [endpoints] (all that is validated before it passes) and that object
    has no [functionName], its own keys before it passing, it throws the
    [Error] of message ["endpoints.function.functionName" is required]. *)
Theorem Validate_missing_name :
  (∀ o : object,
     fields_pass (before "serviceName" globalKeys) o = true →
     get "serviceName" o = VUndefined →
     Validate (VObj o) = Throw (Joi.Error serviceName_required)) ∧
  (∀ (o : object) (i : nat) (f : object),
     child_reached "function" o i = Some f →
     fields_pass (before "functionName" functionScheme) f = true →
     get "functionName" f = VUndefined →
     Validate (VObj o) = Throw (Joi.Error functionName_required)).
Proof.
  split.
  - intros o Hpre Hmissing. apply serviceName_violation; [done |].
    intros s Hs. congruence.
  - intros o i f Hreached Hpre Hmissing. eapply functionName_violation; [done..|].
    intros s Hs. congruence.
Qed.

(** C10, as amended. When the first error [Validate] meets is on
    [serviceName], on [usagePlanName] of a usage plan or on [functionName]
    of a function, whichever rule the value breaks (it is missing, is not
    a string, is empty, or has a length outside the bounds), the error
    thrown is the [Error] given to that key, with exactly its message. *)
Theorem Validate_name_violation :
  (∀ o : object,
     fields_pass (before "serviceName" globalKeys) o = true →
     (∀ s, get "serviceName" o = VStr s →
           (String.length s < 2 ∨ 50 < String.length s)%nat) →
     Validate (VObj o) = Throw (Joi.Error serviceName_required)) ∧
  (∀ (o : object) (i : nat) (u : object),
     child_reached "usagePlan" o i = Some u →
     fields_pass (before "usagePlanName" usagePlanScheme) u = true →
     (∀ s, get "usagePlanName" u = VStr s →
           (String.length s < 2 ∨ 50 < String.length s)%nat) →
     Validate (VObj o) = Throw (Joi.Error usagePlanName_required)) ∧
  (∀ (o : object) (i : nat) (f : object),
     child_reached "function" o i = Some f →
     fields_pass (before "functionName" functionScheme) f = true →
     (∀ s, get "functionName" f = VStr s → s = "") →
     Validate (VObj o) = Throw (Joi.Error functionName_required)).
Proof.
  split_and!.
  - apply serviceName_violation.
  - apply usagePlanName_violation.
  - apply functionName_violation.
Qed.
End RequiredNameSpec.

(** * Further properties *)

(** ** The dispatcher *)

Section DispatcherFurther.
Import ApiGwRequest.

(** X1. On a response object whose [message] is a string,
    [CheckExistsFromError] returns false exactly when the message contains
    "does not exist" or "not found", and true exactly when it contains
    neither. *)
Theorem CheckExistsFromError_string (err : object) (message : string) :
  get "message" err = VStr message →
  (CheckExistsFromError (VObj err) = Return false ↔
     occurs "does not exist" message ∨ occurs "not found" message) ∧
  (CheckExistsFromError (VObj err) = Return true ↔
     ¬ occurs "does not exist" message ∧ ¬ occurs "not found" message).
Proof.
  intros Hmessage. rewrite CheckExistsFromError_object, Hmessage.
  rewrite <- !matches_spec.
  destruct (matches message "does not exist"), (matches message "not found");
    split; split; try done; intuition congruence.
Qed.

(** X2. A failing response without a string [message] loses its [code]
    on the four actions with the existence check: for an action of [apis]
    and a response object whose [code] is not 0 and whose [message] is
    not a string, the call rejects with a [TypeError] when the action is
    UnBindSecretIds, UnBindEnvironment, DeleteUsagePlan or DeleteApiKey,
    and with [HttpError(res.code, res.message)] when it is any other
    action. *)
Theorem apis_without_message (apiRequest : CapiInstance) (action : string)
    (call : api) (data : object) (options : option object) (isV3 : option bool)
    (res : object) :
  own action (apiFactory apiRequest) = Some call →
  apiRequest (request_data action data) (request_options options)
    (default false isV3) = Resolved (VObj res) →
  get "code" res ≠ VNum (Int 0) →
  (∀ message, get "message" res ≠ VStr message) →
  call data options isV3 =
  if bool_decide (action ∈ ["UnBindSecretIds"; "UnBindEnvironment";
                            "DeleteUsagePlan"; "DeleteApiKey"])
  then Rejected TypeError
  else Rejected (HttpError (get "code" res) (get "message" res)).
Proof.
  intros Hcall Hres Hcode Hmessage.
  rewrite apiFactory_own in Hcall. case_decide; [| done].
  injection Hcall as <-. unfold entry. rewrite request_settled, Hres.
  cbn [default member]. rewrite indexOf_spec.
  destruct (strict_neq_zero (get "code" res)) eqn:Hzero;
    [| by apply strict_neq_zero_false in Hzero].
  change needCheckAction with
    ["UnBindSecretIds"; "UnBindEnvironment"; "DeleteUsagePlan"; "DeleteApiKey"].
  case_bool_decide; [| done].
  rewrite (CheckExistsFromError_no_match (VObj res) (get "message" res)); done.
Qed.

(** X3. [request] resolves, and then with the client's own response, exactly
    when the client resolves with a response that is an object and whose
    [code] is the number 0, or [needCheck] is true and the [message] of
    the response is a string that contains "does not exist" or
    "not found". A [code] that is missing or is not a number never counts
    as a success, and neither does a response that is not an object. *)
Theorem request_resolves_iff (apiRequest : CapiInstance) (Action : string)
    (data : object) (options : option object) (isV3 needCheck : option bool)
    (res : value) :
  request apiRequest Action data options isV3 needCheck = Resolved res ↔
  apiRequest (request_data Action data) (request_options options)
    (default false isV3) = Resolved res ∧
  ∃ o : object, res = VObj o ∧
    (get "code" o = VNum (Int 0) ∨
     needCheck = Some true ∧
     ∃ message, get "message" o = VStr message ∧
       (occurs "does not exist" message ∨ occurs "not found" message)).
Proof.
  rewrite request_settled.
  destruct (apiRequest _ _ _) as [res'|e]; [| by split; [| intros [? _]]].
  destruct res' as [| |b|n|s|l|o]; cbn [member].
  1-6: split; [| by intros [[= <-] (o & ? & _)]].
  1-2: done.
  1-4: cbn [strict_neq_zero]; (destruct (default false needCheck); [| done]);
       (destruct (CheckExistsFromError _) as [[]|] eqn:Hcheck; try done);
       by apply CheckExistsFromError_false in Hcheck as [? ?].
  rewrite CheckExistsFromError_object.
  destruct (strict_neq_zero (get "code" o)) eqn:Hcode.
  - assert (get "code" o ≠ VNum (Int 0)) as Hne.
    { intros Heq%strict_neq_zero_false. congruence. }
    destruct needCheck as [[]|]; cbn [default].
    + destruct (get "message" o) as [| | | |message| |] eqn:Hmessage;
        try (split; [done | intros [[= <-] (o' & [= <-] & [? | (_ & m & ? & _)])];
                            congruence]).
      destruct (matches message "does not exist") eqn:Hm1;
        [| destruct (matches message "not found") eqn:Hm2]; cbn [orb negb].
      * split; [intros [= <-] | by intros [[= <-] _]].
        split; [done |]. exists o. split; [done |]. right. split; [done |].
        exists message. split; [done |]. left. by apply matches_spec.
      * split; [intros [= <-] | by intros [[= <-] _]].
        split; [done |]. exists o. split; [done |]. right. split; [done |].
        exists message. split; [done |]. right. by apply matches_spec.
      * split; [done |].
        intros [[= <-] (o' & [= <-] & [? | (_ & m & Hm & Hoccurs)])]; [done |].
        rewrite Hmessage in Hm. injection Hm as <-.
        rewrite <- !matches_spec in Hoccurs. destruct Hoccurs; congruence.
    + split; [done |]. intros [[= <-] (o' & [= <-] & [? | (? & _)])]; done.
    + split; [done |]. intros [[= <-] (o' & [= <-] & [? | (? & _)])]; done.
  - apply strict_neq_zero_false in Hcode.
    split; [intros [= <-] | by intros [[= <-] _]].
    split; [done |]. exists o. split; [done |]. by left.
Qed.

(** X4. [request] rejects with [e] exactly in one of four ways. The client
    rejected with [e]: nothing is caught or wrapped. The client resolved
    with [undefined] or [null], and [e] is the [TypeError] of reading
    [res.code]. The client resolved with another response whose [code]
    (undefined when the response is not an object) is not the number 0,
    and [e] is the [HttpError] of its [code] and [message], one of these
    holding: [needCheck] is off, the response is falsy, or the [message]
    is a string with neither "does not exist" nor "not found". Or
    [needCheck] is on, the [code] is not 0, the response is truthy, its
    [message] is not a string, and [e] is the [TypeError] of the check
    itself. *)
Theorem request_rejects_iff (apiRequest : CapiInstance) (Action : string)
    (data : object) (options : option object) (isV3 needCheck : option bool)
    (e : error) :
  request apiRequest Action data options isV3 needCheck = Rejected e ↔
  let sent := apiRequest (request_data Action data) (request_options options)
                (default false isV3) in
  sent = Rejected e ∨
  ∃ res, sent = Resolved res ∧
    ((res = VUndefined ∨ res = VNull) ∧ e = TypeError
     ∨ ∃ code message,
         member "code" res = Return code ∧ member "message" res = Return message ∧
         code ≠ VNum (Int 0) ∧
         (e = HttpError code message ∧
            (needCheck ≠ Some true ∨ truthy res = false ∨
             ∃ m, message = VStr m ∧
               ¬ occurs "does not exist" m ∧ ¬ occurs "not found" m)
          ∨ e = TypeError ∧ needCheck = Some true ∧ truthy res = true ∧
            ∀ m, message ≠ VStr m)).
Proof.
  rewrite request_settled. cbv zeta.
  destruct (apiRequest _ _ _) as [res|e'].
  2:{ split; [intros [= <-]; by left | intros [[= <-] | (? & ? & _)]; done]. }
  split.
  - (* what the call settled with decides the rejection *)
    intros Hrejected. right. exists res. split; [done |].
    destruct (member "code" res) as [code|err] eqn:Hcode.
    2:{ left. destruct res; simplify_eq/=; auto. }
    destruct (member "message" res) as [message|err] eqn:Hmessage.
    2:{ destruct res; simplify_eq/=. }
    right. exists code, message. split_and!; [done | done | ..].
    { intros ->. simplify_eq/=. }
    destruct (strict_neq_zero code); [| done].
    destruct (default false needCheck) eqn:Hcheck.
    2:{ left. split; [congruence |]. left. intros ->. done. }
    assert (needCheck = Some true) as -> by (by destruct needCheck as [[]|]).
    destruct (truthy res) eqn:Htruthy.
    2:{ rewrite CheckExistsFromError_falsy in Hrejected by done.
        left. split; [congruence | auto]. }
    assert ((∃ m, message = VStr m) ∨ ∀ m, message ≠ VStr m) as [[m ->] | Hno].
    { destruct message; try (by right). left. by eexists. }
    + assert (∃ o, res = VObj o ∧ get "message" o = VStr m) as (o & -> & Hget).
      { destruct res; simplify_eq/=. by eexists. }
      rewrite CheckExistsFromError_object, Hget in Hrejected.
      left. destruct (matches m "does not exist") eqn:Hm1;
        [done | destruct (matches m "not found") eqn:Hm2; [done |]].
      split; [simpl in Hrejected; congruence |]. right. right. exists m.
      rewrite <- !matches_spec. split_and!; [done | congruence..].
    + right.
      rewrite (CheckExistsFromError_no_match res message) in Hrejected by done.
      split_and!; [congruence | done..].
  - intros [? | (res' & [= <-] & [[Hnull ->] | (code & message & Hcode & Hmessage & Hne &
                                  Hways)])]; [done | ..].
    { by destruct Hnull as [-> | ->]. }
    rewrite Hcode, Hmessage.
    destruct (strict_neq_zero code) eqn:Hzero;
      [| by apply strict_neq_zero_false in Hzero].
    destruct Hways as [(-> & Hwhy) | (-> & -> & Htruthy & Hno)].
    + destruct (default false needCheck) eqn:Hcheck; [| done].
      destruct Hwhy as [Hoff | [Hfalsy | (m & -> & Hm1 & Hm2)]].
      * by destruct needCheck as [[]|].
      * by rewrite CheckExistsFromError_falsy.
      * assert (∃ o, res = VObj o ∧ get "message" o = VStr m) as (o & -> & Hget).
        { destruct res; simplify_eq/=. by eexists. }
        rewrite CheckExistsFromError_object, Hget.
        rewrite <- matches_spec in Hm1, Hm2.
        by destruct (matches m "does not exist"), (matches m "not found").
    + cbn [default]. by rewrite (CheckExistsFromError_no_match res message).
Qed.

(** X5. The options the constructor gives to [Capi] have [ServiceType]
    equal to "apigateway", whatever the caller's options say, and every
    other property of the caller's options unchanged. *)
Theorem constructor_ServiceType (options : object) :
  well_formed options →
  ∃ given : object,
    (∀ Capi, apiRequest (constructor Capi options) = Capi given) ∧
    own "ServiceType" given = Some (VStr "apigateway") ∧
    ∀ k, k ≠ "ServiceType" → own k given = own k options.
Proof.
  intros Hwf.
  exists (spread (spread [] options) [("ServiceType", VStr "apigateway")]).
  assert (well_formed [("ServiceType", VStr "apigateway")]) as Hfixed.
  { apply NoDup_singleton. }
  split_and!; [done | by rewrite own_spread |].
  intros k Hk. rewrite own_spread by done. simpl.
  destruct (String.eqb_spec k "ServiceType"); [done |].
  rewrite own_spread by done. by destruct (own k options).
Qed.
End DispatcherFurther.

(** ** The validator *)

Section LeafFacts.
Context `{Joi.Host}.
Implicit Types (c : Joi.common) (v : value) (o t : object).

(** What a string schema accepts, [undefined] apart, is a string that is
    not empty and passes the rules, and it is returned as it is. *)
Lemma string_Ok c opts v v' :
  Joi._validate (Joi.JString c) opts v = Joi.Ok v' →
  defined v = true →
  v' = v ∧
  ∃ s, v = VStr s ∧ s ≠ "" ∧ Joi.run_tests Joi.string_test (Joi.tests c) s = None.
Proof.
  destruct v as [| | | |s| |]; cbn [Joi._validate Joi.common_of]; try done.
  destruct s as [|a s]; [done |].
  destruct (Joi.run_tests _ _ _) eqn:Htests; [done |].
  intros [= <-] _. split; [done |]. by exists (String a s).
Qed.

(** What a boolean schema accepts, [undefined] apart, it returns as a
    boolean. *)
Lemma boolean_Ok c opts v v' :
  Joi._validate (Joi.JBoolean c) opts v = Joi.Ok v' →
  defined v = true → ∃ b, v' = VBool b.
Proof.
  destruct v as [| |b| |s| |]; cbn [Joi._validate Joi.common_of Joi.boolean_convert];
    try done.
  - intros [= <-] _. by exists b.
  - destruct (String.eqb (Joi.toLowerCase s) "true"); [intros [= <-] _; by eexists |].
    destruct (String.eqb (Joi.toLowerCase s) "false"); [intros [= <-] _; by eexists |].
    done.
Qed.

(** What a number schema accepts, [undefined] apart, it returns as a number
    that passes the rules and is not an infinity. *)
Lemma number_Ok c opts v v' :
  Joi._validate (Joi.JNumber c) opts v = Joi.Ok v' →
  defined v = true →
  ∃ n, v' = VNum n ∧ (∀ negative, n ≠ Inf negative) ∧
       Joi.run_tests Joi.number_test (Joi.tests c) n = None.
Proof.
  assert (∀ based,
    match based with
    | Joi.BaseError ty => Joi.Fail (Joi.Err ty None (Joi.flags_error c) None)
    | Joi.BaseValue (Inf _) =>
        Joi.Fail (Joi.Err "any.invalid" None (Joi.flags_error c) None)
    | Joi.BaseValue n =>
        match Joi.run_tests Joi.number_test (Joi.tests c) n with
        | Some ty => Joi.Fail (Joi.Err ty None (Joi.flags_error c) None)
        | None => Joi.Ok (VNum n)
        end
    end = Joi.Ok v' →
    ∃ n, v' = VNum n ∧ (∀ negative, n ≠ Inf negative) ∧
         Joi.run_tests Joi.number_test (Joi.tests c) n = None) as Hbased.
  { intros [ty|n]; [done |].
    destruct n; try done;
      (destruct (Joi.run_tests _ _ _) eqn:Htests; [done |]);
      intros [= <-]; by eexists. }
  destruct v as [| | |n|s| |]; try done; intros Hok _.
  - destruct n; try done; by apply Hbased in Hok.
  - by apply Hbased in Hok.
Qed.

(** A rule that is among the rules of a schema passes when they all do. *)
Lemma run_tests_In {A : Type} (check : Joi.test → A → option string)
    (rules : list Joi.test) (rule : Joi.test) (a : A) :
  Joi.run_tests check rules a = None → In rule rules → check rule a = None.
Proof.
  induction rules as [|rule0 rules IH]; simpl; [done |].
  destruct (check rule0 a) eqn:Hrule0; [done |].
  intros Hrules [-> | Hin]; [done | by apply IH].
Qed.

(** The rules [integer()], [min(lo)], [max(hi)]. *)
Lemma integer_tests_range lo hi n :
  Joi.run_tests Joi.number_test [Joi.Integer; Joi.Min lo; Joi.Max hi] n = None →
  ∃ z, n = Int z ∧ lo ≤ z ≤ hi.
Proof.
  destruct n as [z| | |]; simpl; try done.
  destruct (_ && _); [| done].
  destruct (Z.leb_spec lo z); [| done]. destruct (Z.leb_spec z hi); [| done].
  intros _. exists z. split; [done | lia].
Qed.

Lemma integer_tests_safe n :
  Joi.run_tests Joi.number_test [Joi.Integer] n = None →
  ∃ z, n = Int z ∧ - Joi.MAX_SAFE_INTEGER ≤ z ≤ Joi.MAX_SAFE_INTEGER.
Proof.
  destruct n as [z| | |]; simpl; try done.
  destruct (Z.leb_spec (- Joi.MAX_SAFE_INTEGER) z); [| done].
  destruct (Z.leb_spec z Joi.MAX_SAFE_INTEGER); [| done].
  intros _. exists z. split; [done | lia].
Qed.

(** The rule [regex(/^(a1|...|an)$/)]. *)
Lemma regex_tests_elem alts s :
  Joi.run_tests Joi.string_test [Joi.Regex (Joi.Alternatives alts)] s = None →
  s ∈ alts.
Proof.
  simpl. destruct (existsb _ _) eqn:Hex; [| done]. intros _.
  apply existsb_exists in Hex as (alt & Hin%list_elem_of_In & ->%String.eqb_eq). done.
Qed.

Section Keys.
Variable c : Joi.common.
Variable children : list (string * Joi.schema).
Hypothesis c_settings : Joi.settings c = None.
Hypothesis children_NoDup : NoDup (map fst children).
Variables o t : object.
Hypothesis accepts :
  Joi._validate (Joi.JObject c (Some children)) inner (VObj o) = Joi.Ok (VObj t).

(** A key of a string schema that is given is a string its rules accept,
    and it is returned as given. *)
Lemma object_Ok_string k c' :
  own k children = Some (Joi.JString c') →
  get k o ≠ VUndefined →
  get k t = get k o ∧
  ∃ s, get k o = VStr s ∧ s ≠ "" ∧
       Joi.run_tests Joi.string_test (Joi.tests c') s = None.
Proof.
  intros Hk Hgiven.
  destruct (object_Ok_child c children c_settings children_NoDup o t k _ accepts Hk)
    as (v & Hv & Hget).
  assert (defined (get k o) = true) as Hdefined by by destruct (get k o).
  destruct (string_Ok _ _ _ _ Hv Hdefined) as (-> & Hs).
  split; [| done]. rewrite Hget. by destruct (defined (get k o)).
Qed.

(** A key of a required string schema. *)
Lemma object_Ok_required_string k c' :
  own k children = Some (Joi.JString c') →
  Joi.presence c' = Some Joi.Required →
  ∃ s, get k o = VStr s ∧ s ≠ "" ∧
       Joi.run_tests Joi.string_test (Joi.tests c') s = None.
Proof.
  intros Hk Hrequired.
  destruct (object_Ok_child c children c_settings children_NoDup o t k _ accepts Hk)
    as (v & Hv & _).
  by eapply string_required_Ok.
Qed.

(** A key of a boolean schema whose default is a boolean is returned as a
    boolean. *)
Lemma object_Ok_boolean k c' d :
  own k children = Some (Joi.JBoolean c') →
  Joi.default_value c' = VBool d →
  ∃ b, get k t = VBool b.
Proof.
  intros Hk Hdefault.
  destruct (object_Ok_child c children c_settings children_NoDup o t k _ accepts Hk)
    as (v & Hv & Hget).
  destruct (get k o) eqn:Hgiven.
  1:{ rewrite validate_undefined in Hv. cbn [Joi.common_of] in Hv.
      rewrite Hdefault in Hv. destruct (Joi.presence c') as [[]|]; [| done |];
        injection Hv as <-; by exists d. }
  all: destruct (boolean_Ok _ _ _ _ Hv eq_refl) as [b' ->]; by exists b'.
Qed.

(** A key of a number schema is returned as its default, when it is left
    out, and as a number that passes the rules otherwise. *)
Lemma object_Ok_number k c' :
  own k children = Some (Joi.JNumber c') →
  get k o = VUndefined ∧ get k t = Joi.default_value c' ∨
  ∃ n, get k t = VNum n ∧
       Joi.run_tests Joi.number_test (Joi.tests c') n = None.
Proof.
  intros Hk.
  destruct (object_Ok_child c children c_settings children_NoDup o t k _ accepts Hk)
    as (v & Hv & Hget).
  destruct (get k o) eqn:Hgiven.
  1:{ left. split; [done |]. rewrite validate_undefined in Hv. cbn [Joi.common_of] in Hv.
      destruct (Joi.presence c') as [[]|]; [| done |];
        injection Hv as <-; rewrite Hget; by destruct (Joi.default_value c'). }
  all: right; destruct (number_Ok _ _ _ _ Hv eq_refl) as (n' & -> & _ & Htests);
    by exists n'.
Qed.
End Keys.
End LeafFacts.

Section ConfigFurther.
Context `{Joi.Host}.
Implicit Types (o t e f u a : object) (l : list value).

(** An error at a key of the element of [endpoints] the validation has got
    to. *)
Lemma Validate_endpoint_key_failure o i e k child err :
  endpoint_reached o i = Some e →
  own k endpointScheme = Some child →
  fields_pass (before k endpointScheme) e = true →
  Joi._validate child inner (get k e) = Joi.Fail err →
  Validate (VObj o) =
  Throw (Joi.process [Joi.Key "endpoints"; Joi.Pos i; Joi.Key k] err).
Proof.
  intros Hreached Hk Hpre Hfail.
  rewrite (Validate_endpoint_failure o i e
             (Joi.Err "object.child" (Some (Joi.Key k)) None (Some err)));
    [done | done |].
  change endpointItem with (Joi.JObject Joi.any (Some endpointScheme)).
  by rewrite (object_first_failure Joi.any endpointScheme eq_refl endpointScheme_NoDup
                e k child err).
Qed.

(** The keys before [endpoints] and the elements of [endpoints] pass: the
    validation gets to the rule [max(100)]. *)
Lemma endpoints_checked l :
  forallb (fun x => defined x && passes endpointItem x) l = true →
  ∃ l', Joi.checkItems None (Some (Joi._validate endpointItem inner)) 0 l = Joi.Ok l' ∧
        length l' = length l.
Proof.
  intros Hall.
  destruct (checkItems_Ok_intro None (Joi._validate endpointItem inner) 0 l) as [l' Hl'].
  - apply Forall_forall. intros x Hx. apply endpointItem_accepted.
    rewrite forallb_forall in Hall. apply Hall. by apply list_elem_of_In.
  - exists l'. split; [done |]. by eapply checkItems_length.
Qed.
End ConfigFurther.

Section ValidateFurther.
Context `{Joi.Host}.

(** X6. Without a configuration, [Validate] validates the empty object and
    throws the error of [serviceName]. A configuration that is neither an
    object nor a string (null, a boolean, a number, an array) is rejected
    with joi's [object.base] error, at the root. *)
Theorem Validate_not_an_object :
  Validate VUndefined = Throw (Joi.Error serviceName_required) ∧
  ∀ config : value,
    config ≠ VUndefined → (∀ s, config ≠ VStr s) → (∀ o, config ≠ VObj o) →
    Validate config = Throw (Joi.ValidationError "object.base" []).
Proof.
  split; [done |].
  intros [| |b|n|s|l|o] Hundefined Hstring Hobject; try done.
  - by destruct (Hstring s).
  - by destruct (Hobject o).
Qed.

(** X7. A string given for a key is returned as given: no default and no
    conversion replaces it. This holds for every key of a string schema,
    at the top level, in the elements of [endpoints] and in their
    [function], [usagePlan] and [auth] objects. *)
Theorem Validate_keeps_strings (o : object) (out : value) :
  Validate (VObj o) = Return out →
  ∃ t, out = VObj t ∧
    (∀ k c, own k globalKeys = Some (Joi.JString c) →
            get k o ≠ VUndefined → get k t = get k o) ∧
    ∀ l i e, get "endpoints" o = VArr l → l !! i = Some (VObj e) →
      ∃ l' e', get "endpoints" t = VArr l' ∧ l' !! i = Some (VObj e') ∧
        (∀ k c, own k endpointScheme = Some (Joi.JString c) →
                get k e ≠ VUndefined → get k e' = get k e) ∧
        (∀ f, get "function" e = VObj f →
           ∃ f', get "function" e' = VObj f' ∧
             ∀ k c, own k functionScheme = Some (Joi.JString c) →
                    get k f ≠ VUndefined → get k f' = get k f) ∧
        (∀ u, get "usagePlan" e = VObj u →
           ∃ u', get "usagePlan" e' = VObj u' ∧
             ∀ k c, own k usagePlanScheme = Some (Joi.JString c) →
                    get k u ≠ VUndefined → get k u' = get k u) ∧
        (∀ a, get "auth" e = VObj a →
           ∃ a', get "auth" e' = VObj a' ∧
             ∀ k c, own k authScheme = Some (Joi.JString c) →
                    get k a ≠ VUndefined → get k a' = get k a).
Proof.
  intros Hout. destruct (Validate_Return o out Hout) as (t & -> & Ht).
  exists t. split_and!; [done | ..].
  - intros k c Hk Hgiven.
    by destruct (object_Ok_string Joi.any globalKeys eq_refl globalKeys_NoDup
                   o t Ht k c Hk Hgiven).
  - intros l i e Hl Hi.
    destruct (Validate_Return_endpoint o (VObj t) l i e Hout Hl Hi)
      as (t' & l' & e' & [= <-] & Hget & Hi' & He).
    change endpointItem with (Joi.JObject Joi.any (Some endpointScheme)) in He.
    exists l', e'. split_and!; [done | done | ..].
    + intros k c Hk Hgiven.
      by destruct (object_Ok_string Joi.any endpointScheme eq_refl endpointScheme_NoDup
                     e e' He k c Hk Hgiven).
    + intros f Hf.
      destruct (object_Ok_nested Joi.any endpointScheme e e' "function"
                  (Joi.set_presence Joi.Required Joi.any) (Some functionScheme) f
                  eq_refl endpointScheme_NoDup He eq_refl Hf) as (f' & Hf' & Hfunction).
      exists f'. split; [done |]. intros k c Hk Hgiven.
      by destruct (object_Ok_string (Joi.set_presence Joi.Required Joi.any)
                     functionScheme eq_refl functionScheme_NoDup
                     f f' Hfunction k c Hk Hgiven).
    + intros u Hu.
      destruct (object_Ok_nested Joi.any endpointScheme e e' "usagePlan"
                  Joi.any (Some usagePlanScheme) u
                  eq_refl endpointScheme_NoDup He eq_refl Hu) as (u' & Hu' & Hplan).
      exists u'. split; [done |]. intros k c Hk Hgiven.
      by destruct (object_Ok_string Joi.any usagePlanScheme eq_refl
                     usagePlanScheme_NoDup u u' Hplan k c Hk Hgiven).
    + intros a Ha.
      destruct (object_Ok_nested Joi.any endpointScheme e e' "auth"
                  Joi.any (Some authScheme) a
                  eq_refl endpointScheme_NoDup He eq_refl Ha) as (a' & Ha' & Hauth).
      exists a'. split; [done |]. intros k c Hk Hgiven.
      by destruct (object_Ok_string Joi.any authScheme eq_refl authScheme_NoDup
                     a a' Hauth k c Hk Hgiven).
Qed.

(** X8. The object [Validate] returns is typed, whatever form the accepted
    values had: in every element of [endpoints], [enableCORS] is a boolean;
    [isIntegratedResponse] of its function is a boolean;
    [maxRequestNumPreSec] of its usage plan is an integer from 1 to 2000
    and [maxRequestNum] an integer from 1 to 99999999, or -1 when the
    configuration leaves it out; [serviceTimeout] of its auth is an
    integer. *)
Theorem Validate_returns_typed (o : object) (out : value) (l : list value)
    (i : nat) (e : object) :
  Validate (VObj o) = Return out →
  get "endpoints" o = VArr l →
  l !! i = Some (VObj e) →
  ∃ t l' e', out = VObj t ∧ get "endpoints" t = VArr l' ∧ l' !! i = Some (VObj e') ∧
    (∃ b, get "enableCORS" e' = VBool b) ∧
    (∀ f, get "function" e = VObj f →
       ∃ f' b, get "function" e' = VObj f' ∧
               get "isIntegratedResponse" f' = VBool b) ∧
    (∀ u, get "usagePlan" e = VObj u →
       ∃ u' n m, get "usagePlan" e' = VObj u' ∧
         get "maxRequestNum" u' = VNum (Int n) ∧
         (n = -1 ∧ get "maxRequestNum" u = VUndefined ∨ 1 ≤ n ≤ 99999999) ∧
         get "maxRequestNumPreSec" u' = VNum (Int m) ∧ 1 ≤ m ≤ 2000) ∧
    (∀ a, get "auth" e = VObj a →
       ∃ a' z, get "auth" e' = VObj a' ∧
         get "serviceTimeout" a' = VNum (Int z) ∧
         - Joi.MAX_SAFE_INTEGER ≤ z ≤ Joi.MAX_SAFE_INTEGER).
Proof.
  intros Hout Hl Hi.
  destruct (Validate_Return_endpoint o out l i e Hout Hl Hi)
    as (t & l' & e' & -> & Hget & Hi' & He).
  change endpointItem with (Joi.JObject Joi.any (Some endpointScheme)) in He.
  exists t, l', e'. split_and!; [done | done | done | ..].
  - by eapply (object_Ok_boolean Joi.any endpointScheme eq_refl endpointScheme_NoDup
                 e e' He "enableCORS").
  - intros f Hf.
    destruct (object_Ok_nested Joi.any endpointScheme e e' "function"
                (Joi.set_presence Joi.Required Joi.any) (Some functionScheme) f
                eq_refl endpointScheme_NoDup He eq_refl Hf) as (f' & Hf' & Hfunction).
    destruct (object_Ok_boolean (Joi.set_presence Joi.Required Joi.any)
                functionScheme eq_refl functionScheme_NoDup f f' Hfunction
                "isIntegratedResponse" _ false eq_refl eq_refl) as [b Hb].
    by exists f', b.
  - intros u Hu.
    destruct (object_Ok_nested Joi.any endpointScheme e e' "usagePlan"
                Joi.any (Some usagePlanScheme) u
                eq_refl endpointScheme_NoDup He eq_refl Hu) as (u' & Hu' & Hplan).
    pose proof (object_Ok_number Joi.any usagePlanScheme eq_refl usagePlanScheme_NoDup
                  u u' Hplan) as Hnumber.
    destruct (Hnumber "maxRequestNum" _ eq_refl)
      as [[Hmissing Hn] | (n & Hn & (n' & -> & Hrange)%integer_tests_range)];
      destruct (Hnumber "maxRequestNumPreSec" _ eq_refl)
      as [[_ Hm] | (m & Hm & (m' & -> & Hrange')%integer_tests_range)].
    + exists u', (-1), 1000. split_and!; first [done | lia | by left | by right].
    + exists u', (-1), m'. split_and!; first [done | lia | by left | by right].
    + exists u', n', 1000. split_and!; first [done | lia | by left | by right].
    + exists u', n', m'. split_and!; first [done | lia | by left | by right].
  - intros a Ha.
    destruct (object_Ok_nested Joi.any endpointScheme e e' "auth"
                Joi.any (Some authScheme) a
                eq_refl endpointScheme_NoDup He eq_refl Ha) as (a' & Ha' & Hauth).
    destruct (object_Ok_number Joi.any authScheme eq_refl authScheme_NoDup
                a a' Hauth "serviceTimeout" _ eq_refl)
      as [[_ Hz] | (z & Hz & (z' & -> & Hrange)%integer_tests_safe)].
    + exists a', 15. split_and!; [done | done | done..].
    + by exists a', z'.
Qed.

(** X9. What [Validate] accepts has the names and literals of the schema:
    [serviceName] is a string of 2 to 50 characters; [protocol] and
    [environment], when given, are one of the three literals of their
    pattern, in that very case; every element of [endpoints] that is an
    object has a [path] that is a string and is not empty and a [method]
    that is one of the six literals; its function has a [functionName],
    its usage plan a [usagePlanName] of 2 to 50 characters and its auth a
    [secretName]. *)
Theorem Validate_accepted_names (o : object) (out : value) :
  Validate (VObj o) = Return out →
  (∃ s, get "serviceName" o = VStr s ∧ (2 ≤ String.length s ≤ 50)%nat) ∧
  (get "protocol" o ≠ VUndefined →
   ∃ s, get "protocol" o = VStr s ∧ s ∈ ["http"; "https"; "http&https"]) ∧
  (get "environment" o ≠ VUndefined →
   ∃ s, get "environment" o = VStr s ∧ s ∈ ["prepub"; "test"; "release"]) ∧
  ∀ l i e, get "endpoints" o = VArr l → l !! i = Some (VObj e) →
    (∃ s, get "path" e = VStr s ∧ s ≠ "") ∧
    (∃ s, get "method" e = VStr s ∧
          s ∈ ["GET"; "POST"; "PUT"; "DELETE"; "HEAD"; "ANY"]) ∧
    (∀ f, get "function" e = VObj f →
       ∃ s, get "functionName" f = VStr s ∧ s ≠ "") ∧
    (∀ u, get "usagePlan" e = VObj u →
       ∃ s, get "usagePlanName" u = VStr s ∧ (2 ≤ String.length s ≤ 50)%nat) ∧
    (∀ a, get "auth" e = VObj a →
       ∃ s, get "secretName" a = VStr s ∧ s ≠ "").
Proof.
  intros Hout. destruct (Validate_Return o out Hout) as (t & -> & Ht).
  pose proof (object_Ok_required_string Joi.any globalKeys eq_refl globalKeys_NoDup
                o t Ht) as Hrequired.
  pose proof (object_Ok_string Joi.any globalKeys eq_refl globalKeys_NoDup
                o t Ht) as Hgiven.
  split_and!.
  - destruct (Hrequired "serviceName" _ eq_refl eq_refl)
      as (s & Hs & _ & Htests%string_tests_2_50).
    by exists s.
  - intros Hprotocol.
    destruct (Hgiven "protocol" _ eq_refl Hprotocol)
      as (_ & s & Hs & _ & Htests%regex_tests_elem).
    by exists s.
  - intros Henvironment.
    destruct (Hgiven "environment" _ eq_refl Henvironment)
      as (_ & s & Hs & _ & Htests%regex_tests_elem).
    by exists s.
  - intros l i e Hl Hi.
    destruct (Validate_Return_endpoint o (VObj t) l i e Hout Hl Hi)
      as (t' & l' & e' & _ & _ & _ & He).
    change endpointItem with (Joi.JObject Joi.any (Some endpointScheme)) in He.
    pose proof (object_Ok_required_string Joi.any endpointScheme eq_refl
                  endpointScheme_NoDup e e' He) as Hkey.
    split_and!.
    + destruct (Hkey "path" _ eq_refl eq_refl) as (s & Hs & Hne & _). by exists s.
    + destruct (Hkey "method" _ eq_refl eq_refl)
        as (s & Hs & _ & Htests%regex_tests_elem).
      by exists s.
    + intros f Hf.
      destruct (object_Ok_nested Joi.any endpointScheme e e' "function"
                  (Joi.set_presence Joi.Required Joi.any) (Some functionScheme) f
                  eq_refl endpointScheme_NoDup He eq_refl Hf) as (f' & _ & Hfunction).
      destruct (object_Ok_required_string (Joi.set_presence Joi.Required Joi.any)
                  functionScheme eq_refl functionScheme_NoDup f f' Hfunction
                  "functionName" _ eq_refl eq_refl) as (s & Hs & Hne & _).
      by exists s.
    + intros u Hu.
      destruct (object_Ok_nested Joi.any endpointScheme e e' "usagePlan"
                  Joi.any (Some usagePlanScheme) u
                  eq_refl endpointScheme_NoDup He eq_refl Hu) as (u' & _ & Hplan).
      destruct (object_Ok_required_string Joi.any usagePlanScheme eq_refl
                  usagePlanScheme_NoDup u u' Hplan
                  "usagePlanName" _ eq_refl eq_refl)
        as (s & Hs & _ & Htests%string_tests_2_50).
      by exists s.
    + intros a Ha.
      destruct (object_Ok_nested Joi.any endpointScheme e e' "auth"
                  Joi.any (Some authScheme) a
                  eq_refl endpointScheme_NoDup He eq_refl Ha) as (a' & _ & Hauth).
      destruct (object_Ok_required_string Joi.any authScheme eq_refl
                  authScheme_NoDup a a' Hauth
                  "secretName" _ eq_refl eq_refl) as (s & Hs & Hne & _).
      by exists s.
Qed.

(** X10. [Validate] does not accept what it returns: when a usage plan of
    an accepted configuration leaves [maxRequestNum] out, the returned
    object, in which the default -1 stands for it, is rejected when it is
    validated again. *)
Theorem Validate_output_rejected (o : object) (out : value) (l : list value)
    (i : nat) (e u : object) :
  Validate (VObj o) = Return out →
  get "endpoints" o = VArr l →
  l !! i = Some (VObj e) →
  get "usagePlan" e = VObj u →
  get "maxRequestNum" u = VUndefined →
  ∃ err, Validate out = Throw err.
Proof.
  intros Hout Hl Hi Hu Hmissing.
  destruct (Validate_Return_endpoint o out l i e Hout Hl Hi)
    as (t & l' & e' & -> & Hget & Hi' & He).
  change endpointItem with (Joi.JObject Joi.any (Some endpointScheme)) in He.
  destruct (object_Ok_nested Joi.any endpointScheme e e' "usagePlan"
              Joi.any (Some usagePlanScheme) u
              eq_refl endpointScheme_NoDup He eq_refl Hu) as (u' & Hu' & Hplan).
  pose proof (object_Ok_default Joi.any usagePlanScheme u u' "maxRequestNum" _
                eq_refl usagePlanScheme_NoDup Hplan eq_refl Hmissing) as Hdefault.
  destruct (Validate (VObj t)) as [out'|err] eqn:Hagain; [exfalso | by exists err].
  destruct (Validate_Return_endpoint t out' l' i e' Hagain Hget Hi')
    as (t2 & l2 & e2 & _ & _ & _ & He2).
  change endpointItem with (Joi.JObject Joi.any (Some endpointScheme)) in He2.
  destruct (object_Ok_nested Joi.any endpointScheme e' e2 "usagePlan"
              Joi.any (Some usagePlanScheme) u'
              eq_refl endpointScheme_NoDup He2 eq_refl Hu') as (u2 & _ & Hplan2).
  destruct (object_Ok_child Joi.any usagePlanScheme eq_refl usagePlanScheme_NoDup
              u' u2 "maxRequestNum" _ Hplan2 eq_refl) as (v & Hv & _).
  rewrite Hdefault in Hv. done.
Qed.

(** X11. A required key that has no message of its own: when the first
    thing missing is [endpoints], [path], [method] or [function] of an
    element of [endpoints], or [secretName] of its auth, [Validate] throws
    joi's [any.required] error with the path of that key. *)
Theorem Validate_missing_required :
  (∀ o : object,
     fields_pass (before "endpoints" globalKeys) o = true →
     get "endpoints" o = VUndefined →
     Validate (VObj o) =
     Throw (Joi.ValidationError "any.required" [Joi.Key "endpoints"])) ∧
  (∀ (o : object) (i : nat) (e : object) (k : string),
     endpoint_reached o i = Some e →
     k ∈ ["path"; "method"; "function"] →
     fields_pass (before k endpointScheme) e = true →
     get k e = VUndefined →
     Validate (VObj o) =
     Throw (Joi.ValidationError "any.required"
              [Joi.Key "endpoints"; Joi.Pos i; Joi.Key k])) ∧
  (∀ (o : object) (i : nat) (a : object),
     child_reached "auth" o i = Some a →
     fields_pass (before "secretName" authScheme) a = true →
     get "secretName" a = VUndefined →
     Validate (VObj o) =
     Throw (Joi.ValidationError "any.required"
              [Joi.Key "endpoints"; Joi.Pos i; Joi.Key "auth"; Joi.Key "secretName"])).
Proof.
  split_and!.
  - intros o Hpre Hmissing.
    rewrite (Validate_key_failure o "endpoints" endpointsScheme
               (Joi.Err "any.required" None None None)); [done..|].
    by rewrite Hmissing.
  - intros o i e k Hreached Hk Hpre Hmissing.
    assert (∃ child, own k endpointScheme = Some child ∧
              Joi._validate child inner VUndefined =
              Joi.Fail (Joi.Err "any.required" None None None)) as (child & Hchild & Hfail).
    { repeat (apply elem_of_cons in Hk as [-> | Hk]; [by eexists |]).
      by apply elem_of_nil in Hk. }
    rewrite (Validate_endpoint_key_failure o i e k child
               (Joi.Err "any.required" None None None)); [done..|].
    by rewrite Hmissing.
  - intros o i a Hreached Hpre Hmissing.
    rewrite (Validate_nested_failure "auth" Joi.any authScheme
               "secretName" (Joi.string .> Joi.required) o i a
               (Joi.Err "any.required" None None None));
      [done | reflexivity | done | done | apply authScheme_NoDup
      | done | reflexivity | done |].
    by rewrite Hmissing.
Qed.

(** X12. The bound of [endpoints] is exact. In a configuration whose other
    keys pass and whose elements of [endpoints] all pass, an array of up to
    100 elements, the empty one included, is accepted and returned with as
    many elements; one of more than 100 is rejected with joi's [array.max]
    error at [endpoints]. *)
Theorem Validate_endpoints_bound (o : object) (l : list value) :
  fields_pass (before "endpoints" globalKeys) o = true →
  get "endpoints" o = VArr l →
  forallb (fun x => defined x && passes endpointItem x) l = true →
  ((length l ≤ 100)%nat →
   ∃ t l', Validate (VObj o) = Return (VObj t) ∧
           get "endpoints" t = VArr l' ∧ length l' = length l) ∧
  ((100 < length l)%nat →
   Validate (VObj o) = Throw (Joi.ValidationError "array.max" [Joi.Key "endpoints"])).
Proof.
  intros Hpre Hl Hall.
  destruct (endpoints_checked l Hall) as (l' & Hitems & Hlength).
  pose (c := Joi.set_presence Joi.Required (Joi.add_test (Joi.Max 100) Joi.any)).
  assert (Joi._validate endpointsScheme inner (VArr l) =
          match Joi.run_tests Joi.array_test [Joi.Max 100] l' with
          | Some ty => Joi.Fail (Joi.Err ty None None None)
          | None => Joi.Ok (VArr l')
          end) as Harray.
  { change endpointsScheme with (Joi.JArray c (Some endpointItem)).
    rewrite validate_array. cbv zeta.
    change (Joi.concatSettings inner (Joi.settings c)) with inner.
    change (Joi.flags_error c) with (@None string). by rewrite Hitems. }
  split.
  - intros Hmax.
    assert (Joi.run_tests Joi.array_test [Joi.Max 100] l' = None) as Htests.
    { apply array_max_100. lia. }
    rewrite Htests in Harray.
    destruct (Validate_Return_intro o) as [t Ht].
    { apply fields_pass_Ok. intros k child Hin.
      destruct (decide (k = "endpoints")) as [->|Hne].
      - apply (own_elem_NoDup _ _ _ globalKeys_NoDup) in Hin. injection Hin as <-.
        rewrite Hl. by eexists.
      - rewrite fields_pass_Ok in Hpre. apply Hpre.
        unfold globalKeys in Hin.
        repeat (apply elem_of_cons in Hin as [[= -> ->] | Hin];
                [first [done | vm_compute; repeat constructor] |]).
        by apply elem_of_nil in Hin. }
    exists t, l'. split; [done |].
    destruct (Validate_Return_endpoints o (VObj t) l Ht Hl)
      as (t' & l'' & [= <-] & Hok & Hget & _ & _).
    destruct (object_Ok_child Joi.any globalKeys eq_refl globalKeys_NoDup
                o t "endpoints" endpointsScheme Hok eq_refl) as (v & Hv & Hgetv).
    rewrite Hl, Harray in Hv. injection Hv as <-. by rewrite Hgetv.
  - intros Hmax.
    assert (Joi.run_tests Joi.array_test [Joi.Max 100] l' = Some "array.max") as Htests.
    { simpl. destruct (Z.leb_spec (Z.of_nat (length l')) 100); [lia | done]. }
    rewrite Htests in Harray.
    rewrite (Validate_key_failure o "endpoints" endpointsScheme
               (Joi.Err "array.max" None None None)); [done..|].
    by rewrite Hl.
Qed.
End ValidateFurther.

Section WrongTypes.
Context `{Joi.Host}.

(** X13. A value of the wrong type for [endpoints] or for one of its
    elements, when it is the first error: [endpoints] that is neither an
    array nor a string (null, a boolean, a number, an object) is rejected
    with joi's [array.base] error at [endpoints]; an element that is
    neither an object nor a string (null, a boolean, a number, an array),
    the elements before it passing, is rejected with joi's [object.base]
    error at [endpoints[i]]. *)
Theorem Validate_wrong_types (o : object) :
  fields_pass (before "endpoints" globalKeys) o = true →
  (get "endpoints" o ≠ VUndefined →
   (∀ s, get "endpoints" o ≠ VStr s) → (∀ l, get "endpoints" o ≠ VArr l) →
   Validate (VObj o) = Throw (Joi.ValidationError "array.base" [Joi.Key "endpoints"])) ∧
  (∀ (l : list value) (i : nat) (x : value),
     get "endpoints" o = VArr l →
     forallb (fun y => defined y && passes endpointItem y) (take i l) = true →
     l !! i = Some x →
     x ≠ VUndefined → (∀ s, x ≠ VStr s) → (∀ e, x ≠ VObj e) →
     Validate (VObj o) =
     Throw (Joi.ValidationError "object.base" [Joi.Key "endpoints"; Joi.Pos i])).
Proof.
  intros Hpre. split.
  - intros Hundefined Hstring Harray.
    rewrite (Validate_key_failure o "endpoints" endpointsScheme
               (Joi.Err "array.base" None None None)); [done..|].
    destruct (get "endpoints" o) as [| | | |s|l|]; try done.
    + by destruct (Hstring s).
    + by destruct (Harray l).
  - intros l i x Hl Hbefore Hi Hundefined Hstring Hobject.
    rewrite (Validate_key_failure o "endpoints" endpointsScheme
               (Joi.Err "array.includesOne" (Some (Joi.Pos i)) None
                  (Some (Joi.Err "object.base" None None None))));
      [done | done | done |].
    rewrite Hl, <- (take_drop_middle l i x) by done.
    pose (c := Joi.set_presence Joi.Required (Joi.add_test (Joi.Max 100) Joi.any)).
    change endpointsScheme with (Joi.JArray c (Some endpointItem)).
    rewrite (array_first_failure c eq_refl endpointItem _ _ _
               (Joi.Err "object.base" None None None)).
    + rewrite length_take_le; [done |]. apply lookup_lt_Some in Hi. lia.
    + apply Forall_forall. intros y Hy. apply endpointItem_accepted.
      rewrite forallb_forall in Hbefore. apply Hbefore. by apply list_elem_of_In.
    + by destruct x.
    + destruct x as [| | | |s| |e]; try done.
      * by destruct (Hstring s).
      * by destruct (Hobject e).
Qed.
End WrongTypes.

(** ** Validating again *)

Section Idempotence.
Context `{Joi.Host}.
Implicit Types (c : Joi.common) (s child : Joi.schema) (v : value)
  (o t e u : object) (l : list value).

Lemma assign_own {A : Type} k (x : A) (props : list (string * A)) :
  own k props = Some x → assign k x props = props.
Proof.
  induction props as [|[k0 x0] props IH]; simpl; [done |].
  destruct (String.eqb_spec k k0) as [->|]; [by intros [= ->] |].
  intros Hk. by rewrite IH.
Qed.

Lemma store_get k t : Joi.store k (get k t) t = t.
Proof.
  unfold get. destruct (own k t) as [v|] eqn:Hk; [| done].
  destruct v; simpl; try done; by apply assign_own.
Qed.

Lemma validate_children_unchanged override children t :
  (∀ k child, (k, child) ∈ children → unchanged child (get k t)) →
  Joi.validate_children override (fun child => Joi._validate child inner) children t =
  Joi.Ok t.
Proof.
  induction children as [|[k child] children IH]; intros Hall; simpl; [done |].
  pose proof (Hall k child (list_elem_of_here _ _)) as Hk. unfold unchanged in Hk.
  rewrite Hk, store_get. apply IH. intros k' child' Hin. apply Hall. by right.
Qed.

(** An object whose properties its keys return as they are is returned as
    it is. *)
Lemma object_unchanged c children t :
  Joi.settings c = None →
  (∀ k child, (k, child) ∈ children → unchanged child (get k t)) →
  unchanged (Joi.JObject c (Some children)) (VObj t).
Proof.
  intros Hc Hall. unfold unchanged. rewrite validate_object_inner by done.
  by rewrite validate_children_unchanged.
Qed.

(** What the loop over the keys leaves at a key is returned as it is. *)
Lemma key_unchanged child v v' :
  idempotent child → default_unchanged child →
  Joi._validate child inner v = Joi.Ok v' →
  unchanged child (if defined v' then v' else v).
Proof.
  intros Hidem Hdefault Hv. destruct (defined v) eqn:Hdefined.
  - by destruct (Hidem v v' Hdefined Hv) as [-> Hunchanged].
  - destruct v; try done. rewrite validate_undefined in Hv.
    destruct Hdefault as [Hrequired | Hunchanged]; [by rewrite Hrequired in Hv |].
    assert (v' = Joi.default_value (Joi.common_of child)) as ->.
    { destruct (Joi.presence _) as [[]|]; congruence. }
    by destruct (Joi.default_value _).
Qed.

Lemma string_idempotent c : idempotent (Joi.JString c).
Proof.
  intros v v' Hdefined Hv. by destruct (string_Ok _ _ _ _ Hv Hdefined) as (-> & _).
Qed.

(** A number schema with the rule [integer()] returns a safe integer,
    which it accepts as it is. *)
Lemma number_idempotent c : In Joi.Integer (Joi.tests c) → idempotent (Joi.JNumber c).
Proof.
  intros Hinteger v v' Hdefined Hv.
  destruct (number_Ok _ _ _ _ Hv Hdefined) as (n & -> & _ & Htests).
  split; [done |]. unfold unchanged.
  pose proof (run_tests_In _ _ _ _ Htests Hinteger) as Hsafe. simpl in Hsafe.
  destruct n as [z| | |]; try done.
  cbn [Joi._validate Joi.common_of Joi.number_base Joi.isNaN].
  assert (Joi.unsafe (Int z) = false) as ->.
  { unfold Joi.unsafe, Joi.number_le, Joi.number_ge.
    simpl in Hsafe. destruct (_ <=? z), (z <=? _); done. }
  by rewrite Htests.
Qed.

Lemma boolean_idempotent c : idempotent (Joi.JBoolean c).
Proof.
  intros v v' Hdefined Hv. by destruct (boolean_Ok _ _ _ _ Hv Hdefined) as (b & ->).
Qed.

(** What an array schema accepts is an array, or the JSON text of one. *)
Lemma array_parsed c item opts v v' :
  Joi._validate (Joi.JArray c item) opts v = Joi.Ok v' →
  defined v = true →
  ∃ l, Joi._validate (Joi.JArray c item) opts (VArr l) = Joi.Ok v'.
Proof.
  destruct v as [| | | |str|l|]; try done; [| intros; by exists l].
  cbn [Joi._validate Joi.array_parse].
  destruct (Joi.JSON_parse str) as [[| | | | |l|]|]; try done.
  intros Hv _. by exists l.
Qed.

Lemma array_plain_idempotent c : idempotent (Joi.JArray c None).
Proof.
  intros v v' Hdefined Hv.
  destruct (array_parsed _ _ _ _ _ Hv Hdefined) as [l Hl].
  destruct (array_plain_Ok c l v' Hl) as [-> _]. done.
Qed.

(** What an object schema accepts is an object, or the JSON text of one. *)
Lemma object_parsed c children opts v v' :
  Joi._validate (Joi.JObject c children) opts v = Joi.Ok v' →
  defined v = true →
  ∃ props t, v' = VObj t ∧
    Joi._validate (Joi.JObject c children) opts (VObj props) = Joi.Ok (VObj t).
Proof.
  intros Hv Hdefined.
  destruct (validate_object_defined _ _ _ _ _ Hv Hdefined) as [t ->].
  destruct v as [| | | |str| |props]; try done; [| by exists props, t].
  revert Hv. cbn [Joi._validate Joi.object_parse].
  destruct (Joi.JSON_parse str) as [[| | | | | |props]|]; try done.
  intros Hv. by exists props, t.
Qed.

Lemma object_idempotent c children :
  Joi.settings c = None → NoDup (map fst children) →
  (∀ k child, (k, child) ∈ children → idempotent child ∧ default_unchanged child) →
  idempotent (Joi.JObject c (Some children)).
Proof.
  intros Hc Hnd Hall v v' Hdefined Hv.
  destruct (object_parsed _ _ _ _ _ Hv Hdefined) as (props & t & -> & Hprops).
  split; [done |]. apply object_unchanged; [done |]. intros k child Hin.
  destruct (object_Ok_child c children Hc Hnd props t k child Hprops
              (own_elem_NoDup _ _ _ Hnd Hin)) as (x & Hx & ->).
  destruct (Hall k child Hin). by apply key_unchanged.
Qed.

Lemma checkItems_unchanged override item i l :
  Forall (fun x => defined x = true ∧ unchanged item x) l →
  Joi.checkItems override (Some (Joi._validate item inner)) i l = Joi.Ok l.
Proof.
  intros Hall. revert i. induction Hall as [|x l [Hx Hunchanged] _ IH]; intros i;
    [done |].
  rewrite checkItems_cons. cbv zeta. unfold unchanged in Hunchanged.
  by rewrite Hx, Hunchanged, Hx, IH.
Qed.

(** The keys of a schema of the configuration, one after the other. *)
Ltac each_key Hin :=
  repeat (apply elem_of_cons in Hin as [[= -> ->] | Hin]);
  [.. | by apply elem_of_nil in Hin].

Ltac leaf_idempotent :=
  first [ apply string_idempotent | apply number_idempotent; cbn; by auto
        | apply boolean_idempotent | apply array_plain_idempotent ].

Ltac leaf_default := first [by left | by right].

Lemma function_idempotent :
  idempotent (Joi.JObject (Joi.set_presence Joi.Required Joi.any) (Some functionScheme)).
Proof.
  apply object_idempotent; [done | apply functionScheme_NoDup |].
  intros k child Hin. unfold functionScheme in Hin.
  each_key Hin; (split; [leaf_idempotent | leaf_default]).
Qed.

Lemma auth_idempotent : idempotent (Joi.JObject Joi.any (Some authScheme)).
Proof.
  apply object_idempotent; [done | apply authScheme_NoDup |].
  intros k child Hin. unfold authScheme in Hin.
  each_key Hin; (split; [leaf_idempotent | leaf_default]).
Qed.

(** A usage plan that was accepted is returned as it is, unless its
    [maxRequestNum] is the default -1. *)
Lemma usagePlan_unchanged v v' :
  Joi._validate (Joi.JObject Joi.any (Some usagePlanScheme)) inner v = Joi.Ok v' →
  defined v = true →
  ∃ u, v' = VObj u ∧
    (get "maxRequestNum" u ≠ VNum (Int (-1)) →
     unchanged (Joi.JObject Joi.any (Some usagePlanScheme)) (VObj u)).
Proof.
  intros Hv Hdefined.
  destruct (object_parsed _ _ _ _ _ Hv Hdefined) as (props & u & -> & Hprops).
  exists u. split; [done |]. intros Hlimit.
  apply object_unchanged; [done |]. intros k child Hin.
  destruct (object_Ok_child Joi.any usagePlanScheme eq_refl usagePlanScheme_NoDup
              props u k child Hprops (own_elem_NoDup _ _ _ usagePlanScheme_NoDup Hin))
    as (x & Hx & Hget).
  unfold usagePlanScheme in Hin.
  each_key Hin;
    try (rewrite Hget; apply key_unchanged; [leaf_idempotent | leaf_default | done]).
  destruct (defined (get "maxRequestNum" props)) eqn:Hgiven.
  - pose (c := Joi.set_default (VNum (Int (-1)))
                 (Joi.set_presence Joi.Optional
                    (Joi.add_test (Joi.Max 99999999)
                       (Joi.add_test (Joi.Min 1) (Joi.add_test Joi.Integer Joi.any))))).
    assert (idempotent (Joi.JNumber c)) as Hidempotent.
    { apply number_idempotent. cbn. by auto. }
    destruct (Hidempotent _ x Hgiven Hx) as [Hdefined' Hunchanged].
    by rewrite Hget, Hdefined'.
  - destruct (get "maxRequestNum" props); try done.
    rewrite validate_undefined in Hx. injection Hx as <-. by destruct Hlimit.
Qed.

(** An element of [endpoints] that was accepted is returned as it is,
    unless [maxRequestNum] of its usage plan is the default -1. *)
Lemma endpointItem_unchanged v v' :
  Joi._validate endpointItem inner v = Joi.Ok v' →
  defined v = true →
  ∃ e, v' = VObj e ∧
    ((∀ u, get "usagePlan" e = VObj u → get "maxRequestNum" u ≠ VNum (Int (-1))) →
     unchanged endpointItem (VObj e)).
Proof.
  intros Hv Hdefined.
  change endpointItem with (Joi.JObject Joi.any (Some endpointScheme)) in *.
  destruct (object_parsed _ _ _ _ _ Hv Hdefined) as (props & e & -> & Hprops).
  exists e. split; [done |]. intros Hlimit.
  apply object_unchanged; [done |]. intros k child Hin.
  destruct (object_Ok_child Joi.any endpointScheme eq_refl endpointScheme_NoDup
              props e k child Hprops (own_elem_NoDup _ _ _ endpointScheme_NoDup Hin))
    as (x & Hx & Hget).
  unfold endpointScheme in Hin.
  each_key Hin;
    try (rewrite Hget; apply key_unchanged;
         [first [leaf_idempotent | apply function_idempotent | apply auth_idempotent]
         | leaf_default | done]).
  destruct (defined (get "usagePlan" props)) eqn:Hgiven.
  - destruct (usagePlan_unchanged _ _ Hx Hgiven) as (u & -> & Hunchanged).
    rewrite Hget in *. by apply Hunchanged, Hlimit.
  - destruct (get "usagePlan" props); try done.
    rewrite validate_undefined in Hx. injection Hx as <-. by rewrite Hget.
Qed.

(** X14. [Validate] returns what it returned as it is, when that has no
    [maxRequestNum] of -1: for the object [t] it returns for an accepted
    configuration, if no usage plan of an element of [endpoints] of [t] has
    [maxRequestNum] equal to -1 (the default of a usage plan that leaves
    it out), then [Validate] accepts [t] and returns [t] itself. *)
Theorem Validate_idempotent (o t : object) :
  Validate (VObj o) = Return (VObj t) →
  (∀ l i e u, get "endpoints" t = VArr l → l !! i = Some (VObj e) →
              get "usagePlan" e = VObj u →
              get "maxRequestNum" u ≠ VNum (Int (-1))) →
  Validate (VObj t) = Return (VObj t).
Proof.
  intros Hout Hlimit.
  destruct (Validate_Return o _ Hout) as (t' & [= <-] & Ht).
  rewrite Validate_object.
  change (Joi.object .> Joi.keys globalKeys) with (Joi.JObject Joi.any (Some globalKeys))
    in *.
  assert (unchanged (Joi.JObject Joi.any (Some globalKeys)) (VObj t)) as ->; [| done].
  apply object_unchanged; [done |]. intros k child Hin.
  destruct (object_Ok_child Joi.any globalKeys eq_refl globalKeys_NoDup
              o t k child Ht (own_elem_NoDup _ _ _ globalKeys_NoDup Hin))
    as (x & Hx & Hget).
  unfold globalKeys in Hin.
  each_key Hin;
    try (rewrite Hget; apply key_unchanged; [leaf_idempotent | leaf_default | done]).
  destruct (defined (get "endpoints" o)) eqn:Hgiven;
    [| destruct (get "endpoints" o); done].
  pose (c := Joi.set_presence Joi.Required (Joi.add_test (Joi.Max 100) Joi.any)).
  change endpointsScheme with (Joi.JArray c (Some endpointItem)) in *.
  destruct (array_parsed _ _ _ _ _ Hx Hgiven) as [l Hl].
  destruct (array_Ok c eq_refl endpointItem l x Hl) as (l' & -> & Hitems & Htests).
  cbn [defined] in Hget. rewrite Hget. unfold unchanged.
  rewrite validate_array. cbv zeta.
  change (Joi.concatSettings inner (Joi.settings c)) with inner.
  rewrite checkItems_unchanged, Htests; [done |].
  apply Forall_lookup. intros i y' Hi.
  destruct (Forall2_lookup_r _ _ _ _ _ Hitems Hi) as (y & _ & Hy & Hy' & Hdefined).
  split; [done |].
  destruct (endpointItem_unchanged _ _ Hy' Hy) as (e & -> & Hunchanged).
  apply Hunchanged. intros u. by apply (Hlimit l' i e u).
Qed.
End Idempotence.

(** * Examples *)



(** C2 fails as stated: when [data] has a property [Action], the client is
    called with that property, not with the action name. *)
Lemma request_data_collision :
  well_formed [("Action", VStr "DeleteService")] ∧
  get "Action"
    (ApiGwRequest.request_data "CreateService" [("Action", VStr "DeleteService")]) ≠
    VStr "CreateService" ∧
  ApiGwRequest.request echo_client "CreateService"
    [("Action", VStr "DeleteService")] None None None =
  Resolved (VObj [("code", VNum (Int 0));
                  ("data", VObj [("Action", VStr "DeleteService")]);
                  ("options", VObj [("path", VStr "/v2/index.php")]);
                  ("isV3", VBool false)]).
Proof.
  split_and!; [apply NoDup_singleton | done | done].
Qed.

Lemma request_data_merges_witness :
  well_formed [("ServiceName", VStr "svc")] ∧
  ∃ payload : object,
    own "Action" payload = Some (VStr "CreateService") ∧
    own "ServiceName" payload = Some (VStr "svc") ∧
    ApiGwRequest.request echo_client "CreateService" [("ServiceName", VStr "svc")]
      None None None =
    Resolved (VObj [("code", VNum (Int 0)); ("data", VObj payload);
                    ("options", VObj [("path", VStr "/v2/index.php")]);
                    ("isV3", VBool false)]).
Proof.
  assert (well_formed [("ServiceName", VStr "svc")]) as Hwf by apply NoDup_singleton.
  split; [done |].
  destruct (request_data_merges "CreateService" _ Hwf) as (payload & Hmerge & Hsent).
  exists payload.
  split_and!; [apply (Hmerge "Action") | apply (Hmerge "ServiceName") |].
  destruct (Hsent echo_client None None None) as (_ & _ & Hresolved).
  apply Hresolved; reflexivity.
Defined.


Lemma Validate_rejects_long_arrays_witness :
  let l := replicate 101 (VObj full_endpoint) in
  (100 < length l)%nat ∧
  ∃ err, Validate (H := example_host)
           (VObj [("serviceName", VStr "svc"); ("endpoints", VArr l)]) = Throw err.
Proof.
  intros l. assert (100 < length l)%nat as Hlong by (vm_compute; lia).
  split; [done |].
  exact (@Validate_rejects_long_arrays example_host
           [("serviceName", VStr "svc"); ("endpoints", VArr l)] l
           eq_refl (or_introl Hlong)).
Defined.

Lemma Validate_populates_defaults_witness :
  ServiceConfig (service_with full_endpoint) = true ∧
  ∃ t, Validate (H := example_host) (VObj (service_with full_endpoint)) =
       Return (VObj t) ∧
       get "region" t = VStr "ap-guangzhou" ∧
       get "protocol" t = VStr "http" ∧
       get "environment" t = VStr "release".
Proof.
  split; [reflexivity |].
  destruct (@Validate_populates_defaults example_host (service_with full_endpoint))
    as [Hreturns Hdefaults].
  destruct (Hreturns eq_refl) as [out Hout].
  destruct (Hdefaults out Hout) as (t & -> & Hregion & Hprotocol & Henvironment & _).
  exists t. split_and!; [done | by apply Hregion | by apply Hprotocol
                        | by apply Henvironment].
Defined.

Lemma maxRequestNum_default_below_min_witness :
  (∃ out, Validate (H := example_host) (VObj (service_with full_endpoint)) = Return out) ∧
  Validate (H := example_host)
    (VObj (replace_endpoint (service_with full_endpoint) [VObj full_endpoint] 0
       (assign "usagePlan"
          (VObj (assign "maxRequestNum" (VNum (Int (-1)))
                   [("usagePlanName", VStr "plan")]))
          full_endpoint))) =
  Throw (Joi.ValidationError "number.min"
           [Joi.Key "endpoints"; Joi.Pos 0; Joi.Key "usagePlan";
            Joi.Key "maxRequestNum"]).
Proof.
  split; [eexists; reflexivity |].
  exact (proj2 (@maxRequestNum_default_below_min example_host
                  (service_with full_endpoint) _ [VObj full_endpoint] 0%nat
                  full_endpoint [("usagePlanName", VStr "plan")]
                  eq_refl eq_refl eq_refl eq_refl eq_refl)).
Defined.

(** C3 fails as stated: a key the schema of an endpoint does not name,
    inside an element of [endpoints], does not make [Validate] throw. *)
Lemma Validate_accepts_unknown_endpoint_key :
  ("stage" ∉ JS.keys endpointScheme) ∧
  ¬ (∃ (h : Joi.Host) (err : Joi.exception),
       Validate (H := h)
         (VObj (service_with (full_endpoint ++ [("stage", VStr "beta")]))) =
       Throw err).
Proof.
  split.
  - by_computation.
  - intros (h & err & Herr). by vm_compute in Herr.
Qed.

Lemma unknown_keys_allowed_witness :
  let o := (service_with (full_endpoint ++ [("stage", VStr "beta")])
            ++ [("owner", VStr "team")])%list in
  ∃ t, Validate (H := example_host) (VObj o) = Return (VObj t) ∧
       own "owner" t = Some (VStr "team").
Proof.
  intros o.
  destruct (@unknown_keys_allowed example_host o _ eq_refl) as (t & Ht & Hframe & _).
  exists t. split; [exact (f_equal Return Ht) |].
  rewrite Hframe; [done |]. by_computation.
Defined.

(** C8 fails as stated: in a configuration with neither [serviceName] nor
    [functionName] of its endpoint's function, the error is the one of
    [serviceName], whose message does not contain the other. *)
Lemma Validate_missing_both_names :
  ¬ occurs functionName_required serviceName_required ∧
  ¬ ∃ h : Joi.Host,
      Validate (H := h) (VObj [("endpoints", VArr [VObj (endpoint_with [])])]) ≠
      Throw (Joi.Error serviceName_required).
Proof.
  split.
  - rewrite <- matches_spec. by vm_compute.
  - intros [h Hh]. by apply Hh.
Qed.

Lemma Validate_missing_name_witness :
  Validate (H := example_host) (VObj []) = Throw (Joi.Error serviceName_required) ∧
  Validate (H := example_host) (VObj (service_with (endpoint_with []))) =
    Throw (Joi.Error functionName_required).
Proof.
  exact (conj
    (proj1 (@Validate_missing_name example_host) [] eq_refl eq_refl)
    (proj2 (@Validate_missing_name example_host)
       (service_with (endpoint_with [])) 0%nat [] eq_refl eq_refl eq_refl)).
Defined.

(** C10 fails as stated: with a [serviceName] of one character and an
    endpoint whose function has no [functionName], the violation of
    [functionName] does not yield its message; the error is the one of
    [serviceName]. *)
Lemma Validate_two_violations :
  serviceName_required ≠ functionName_required ∧
  ¬ ∃ h : Joi.Host,
      Validate (H := h)
        (VObj [("serviceName", VStr "a");
               ("endpoints", VArr [VObj (endpoint_with [])])]) ≠
      Throw (Joi.Error serviceName_required).
Proof.
  split; [done |]. intros [h Hh]. by apply Hh.
Qed.

Lemma Validate_name_violation_witness :
  Validate (H := example_host)
    (VObj [("serviceName", VStr "a"); ("endpoints", VArr [])]) =
    Throw (Joi.Error serviceName_required) ∧
  Validate (H := example_host)
    (VObj (service_with
       (endpoint_with [("functionName", VStr "f")]
          ++ [("usagePlan", VObj [("usagePlanName", VNum (Int 7))])]))) =
    Throw (Joi.Error usagePlanName_required) ∧
  Validate (H := example_host)
    (VObj (service_with (endpoint_with [("functionName", VBool true)]))) =
    Throw (Joi.Error functionName_required).
Proof.
  pose proof (@Validate_name_violation example_host) as (Hservice & Hplan & Hfunction).
  split_and!.
  - apply Hservice; [reflexivity |]. intros s [= <-]. simpl. lia.
  - apply (Hplan _ 0%nat [("usagePlanName", VNum (Int 7))]); [reflexivity.. |].
    intros s [=].
  - apply (Hfunction _ 0%nat [("functionName", VBool true)]); [reflexivity.. |].
    intros s [=].
Defined.

Lemma CheckExistsFromError_string_witness :
  let err := [("code", VNum (Int 1)); ("message", VStr "resource Not Found")] in
  (CheckExistsFromError (VObj err) = Return false ↔
     occurs "does not exist" "resource Not Found" ∨
     occurs "not found" "resource Not Found") ∧
  (CheckExistsFromError (VObj err) = Return true ↔
     ¬ occurs "does not exist" "resource Not Found" ∧
     ¬ occurs "not found" "resource Not Found").
Proof.
  exact (CheckExistsFromError_string
           [("code", VNum (Int 1)); ("message", VStr "resource Not Found")]
           "resource Not Found" eq_refl).
Defined.

Lemma apis_without_message_witness :
  let client : CapiInstance :=
    fun _ _ _ => Resolved (VObj [("code", VNum (Int 1)); ("message", VNull)]) in
  ApiGwRequest.entry client "DeleteUsagePlan" [] None None = Rejected TypeError ∧
  ApiGwRequest.entry client "CreateService" [] None None =
    Rejected (HttpError (VNum (Int 1)) VNull).
Proof.
  intros client. split.
  - apply (apis_without_message client "DeleteUsagePlan" _ [] None None
             [("code", VNum (Int 1)); ("message", VNull)]);
      [reflexivity | reflexivity | discriminate | discriminate].
  - apply (apis_without_message client "CreateService" _ [] None None
             [("code", VNum (Int 1)); ("message", VNull)]);
      [reflexivity | reflexivity | discriminate | discriminate].
Defined.

Lemma constructor_ServiceType_witness :
  let options := [("ServiceType", VStr "cvm"); ("Region", VStr "ap-guangzhou")] in
  well_formed options ∧
  ∃ given : object,
    (∀ Capi, ApiGwRequest.apiRequest (ApiGwRequest.constructor Capi options) =
             Capi given) ∧
    own "ServiceType" given = Some (VStr "apigateway") ∧
    own "Region" given = Some (VStr "ap-guangzhou").
Proof.
  intros options. assert (well_formed options) as Hwf by by_computation.
  split; [done |].
  destruct (constructor_ServiceType options Hwf) as (given & Hgiven & Htype & Hother).
  exists given. split_and!; [done | done |]. by rewrite Hother.
Defined.

Lemma Validate_not_an_object_witness :
  Validate (H := example_host) VNull = Throw (Joi.ValidationError "object.base" []) ∧
  Validate (H := example_host) (VArr [VObj (service_with full_endpoint)]) =
    Throw (Joi.ValidationError "object.base" []).
Proof.
  split; apply (proj2 (@Validate_not_an_object example_host)); discriminate.
Defined.

Lemma Validate_keeps_strings_witness :
  let o := (service_with full_endpoint ++ [("region", VStr "ap-shanghai")])%list in
  ∃ t, Validate (H := example_host) (VObj o) = Return (VObj t) ∧
       get "region" t = VStr "ap-shanghai".
Proof.
  intros o.
  destruct (@Validate_keeps_strings example_host o _ eq_refl) as (t & Ht & Hkeys & _).
  exists t. split; [exact (f_equal Return Ht) |].
  by rewrite (Hkeys "region" _ eq_refl).
Defined.

Lemma Validate_returns_typed_witness :
  ∃ t l' e' u' n m,
    Validate (H := example_host) (VObj (service_with full_endpoint)) = Return (VObj t) ∧
    get "endpoints" t = VArr l' ∧ l' !! 0%nat = Some (VObj e') ∧
    get "usagePlan" e' = VObj u' ∧
    get "maxRequestNum" u' = VNum (Int n) ∧
    get "maxRequestNumPreSec" u' = VNum (Int m) ∧ 1 ≤ m ≤ 2000.
Proof.
  destruct (@Validate_returns_typed example_host (service_with full_endpoint) _
              [VObj full_endpoint] 0%nat full_endpoint eq_refl eq_refl eq_refl)
    as (t & l' & e' & Ht & Hget & Hi & _ & _ & Hplan & _).
  destruct (Hplan [("usagePlanName", VStr "plan")] eq_refl)
    as (u' & n & m & Hu' & Hn & _ & Hm & Hrange).
  exists t, l', e', u', n, m.
  split_and!; [exact (f_equal Return Ht) | first [done | lia]..].
Defined.

Lemma Validate_accepted_names_witness :
  (∃ out, Validate (H := example_host) (VObj (service_with full_endpoint)) = Return out) ∧
  ∃ s, get "serviceName" (service_with full_endpoint) = VStr s ∧
       (2 ≤ String.length s ≤ 50)%nat.
Proof.
  split; [eexists; reflexivity |].
  exact (proj1 (@Validate_accepted_names example_host
                  (service_with full_endpoint) _ eq_refl)).
Defined.

Lemma Validate_output_rejected_witness :
  ∃ out, Validate (H := example_host) (VObj (service_with full_endpoint)) = Return out ∧
         ∃ err, Validate (H := example_host) out = Throw err.
Proof.
  eexists. split; [reflexivity |].
  exact (@Validate_output_rejected example_host (service_with full_endpoint) _
           [VObj full_endpoint] 0%nat full_endpoint [("usagePlanName", VStr "plan")]
           eq_refl eq_refl eq_refl eq_refl eq_refl).
Defined.

Lemma Validate_missing_required_witness :
  Validate (H := example_host) (VObj [("serviceName", VStr "svc")]) =
    Throw (Joi.ValidationError "any.required" [Joi.Key "endpoints"]) ∧
  Validate (H := example_host) (VObj (service_with [("method", VStr "GET")])) =
    Throw (Joi.ValidationError "any.required"
             [Joi.Key "endpoints"; Joi.Pos 0; Joi.Key "path"]) ∧
  Validate (H := example_host)
    (VObj (service_with
       (endpoint_with [("functionName", VStr "f")] ++ [("auth", VObj [])]))) =
    Throw (Joi.ValidationError "any.required"
             [Joi.Key "endpoints"; Joi.Pos 0; Joi.Key "auth"; Joi.Key "secretName"]).
Proof.
  pose proof (@Validate_missing_required example_host) as (Hendpoints & Hkey & Hsecret).
  split_and!.
  - apply Hendpoints; reflexivity.
  - apply (Hkey _ 0%nat [("method", VStr "GET")] "path");
      [reflexivity | by_computation | reflexivity | reflexivity].
  - apply (Hsecret _ 0%nat []); reflexivity.
Defined.

Lemma Validate_endpoints_bound_witness :
  (∃ t, Validate (H := example_host)
          (VObj [("serviceName", VStr "svc"); ("endpoints", VArr [])]) =
        Return (VObj t) ∧
        get "endpoints" t = VArr []) ∧
  Validate (H := example_host)
    (VObj [("serviceName", VStr "svc");
           ("endpoints", VArr (replicate 101 (VObj full_endpoint)))]) =
  Throw (Joi.ValidationError "array.max" [Joi.Key "endpoints"]).
Proof.
  split.
  - destruct (proj1 (@Validate_endpoints_bound example_host
                       [("serviceName", VStr "svc"); ("endpoints", VArr [])] []
                       eq_refl eq_refl eq_refl))
      as (t & l' & Ht & Hget & Hlength); [simpl; lia |].
    destruct l'; [| discriminate Hlength]. by exists t.
  - apply (proj2 (@Validate_endpoints_bound example_host
                    [("serviceName", VStr "svc");
                     ("endpoints", VArr (replicate 101 (VObj full_endpoint)))]
                    (replicate 101 (VObj full_endpoint))
                    eq_refl eq_refl ltac:(by vm_compute))).
    vm_compute. lia.
Defined.

Lemma Validate_idempotent_witness :
  let plan := [("usagePlanName", VStr "plan"); ("maxRequestNum", VNum (Int 5))] in
  let o := service_with (endpoint_with [("functionName", VStr "f")]
                           ++ [("usagePlan", VObj plan)]) in
  ∃ t, Validate (H := example_host) (VObj o) = Return (VObj t) ∧
       Validate (H := example_host) (VObj t) = Return (VObj t).
Proof.
  intros plan o. eexists. split; [reflexivity |].
  apply (@Validate_idempotent example_host o); [reflexivity |].
  intros l i e u Hl Hi Hu. vm_compute in Hl. injection Hl as <-.
  destruct i as [|[|i]]; try discriminate Hi. injection Hi as <-.
  vm_compute in Hu. injection Hu as <-. discriminate.
Defined.

Lemma Validate_wrong_types_witness :
  Validate (H := example_host)
    (VObj [("serviceName", VStr "svc"); ("endpoints", VObj full_endpoint)]) =
    Throw (Joi.ValidationError "array.base" [Joi.Key "endpoints"]) ∧
  Validate (H := example_host)
    (VObj [("serviceName", VStr "svc");
           ("endpoints", VArr [VObj full_endpoint; VNull])]) =
    Throw (Joi.ValidationError "object.base" [Joi.Key "endpoints"; Joi.Pos 1]).
Proof.
  split.
  - apply (proj1 (@Validate_wrong_types example_host
                    [("serviceName", VStr "svc"); ("endpoints", VObj full_endpoint)]
                    eq_refl)); discriminate.
  - apply (proj2 (@Validate_wrong_types example_host
                    [("serviceName", VStr "svc");
                     ("endpoints", VArr [VObj full_endpoint; VNull])]
                    eq_refl)
             [VObj full_endpoint; VNull] 1%nat VNull);
      first [reflexivity | discriminate].
Defined.
